(** * ark: pooled allocator (package alloc) and growable buffer (package buffer)

    A shallow embedding of [alloc/alloc.go] and [buffer/buffer.go].

    - Go's [int] is the 64-bit two's complement integer: values are [Z],
      every arithmetic result goes through [wrap].
    - A byte slice is its header (backing array, offset, length, capacity);
      the backing arrays live in a [heap], so that aliasing between slices
      is visible.  Arrays are never freed (garbage collection is not
      observable), the heap only grows.
    - A run-time panic ends the computation: operations that can panic
      return a [result].  Go [error] values are ordinary results.
    - Allocation.  [make] is the allocation itself.  [makeslice] is
      [make([]byte, n)] as the run time runs it: a negative size or one
      above [maxAlloc] panics with "makeslice: len out of range" before
      anything is allocated; below the limit the host is assumed to have
      the memory (an exhausted host aborts the program, which lies
      outside the program's own error set).  [NewSize], whose size is the
      caller's argument, allocates with [makeslice], and so do [grow_run]
      and [Extend_run].  [grow] and the operations built on it,
      [ReadBytes] and the pools are written with [make]: they describe
      the call on a host that carries the allocation out, where the size
      asked for is at most [MaxSize], the bytes held, or the room for the
      bytes held and the bytes written.
    - A panic does not undo the assignments made before it.  For the two
      methods that assign to the receiver before an expression that can
      panic, [grow_run] and [Extend_run] give the heap and the receiver
      as the call leaves them on every path. *)

From Stdlib Require Import ZArith Lia String Bool.
From Stdlib.Strings Require Import Byte.
From stdpp Require Import base tactics option list.

Local Open Scope Z_scope.

(** ** Go's int *)

Definition int_min : Z := - 2 ^ 63.
Definition int_max : Z := 2 ^ 63 - 1.

(** Two's complement wrap-around of a mathematical integer into [int]. *)
Definition wrap (z : Z) : Z := (z + 2 ^ 63) mod 2 ^ 64 - 2 ^ 63.

Definition int_add (x y : Z) : Z := wrap (x + y).
Definition int_sub (x y : Z) : Z := wrap (x - y).
Definition int_mul (x y : Z) : Z := wrap (x * y).

(** [uint(x)] on an [int]. *)
Definition uint (x : Z) : Z := x mod 2 ^ 64.

(** [bits.Len(x)]: the number of bits needed to represent [x]; 0 for 0. *)
Definition bits_Len (x : Z) : Z := if x =? 0 then 0 else Z.log2 x + 1.

(** ** Panics and errors *)

Inductive result (A : Type) : Type :=
| Ok (a : A)
| Panic (msg : string).
Arguments Ok {A} a.
Arguments Panic {A} msg.

#[global] Instance result_bind : MBind result :=
  fun A B (k : A -> result B) (r : result A) =>
    match r with
    | Ok a => k a
    | Panic m => Panic m
    end.

(** A Go [error]: [None] is [nil]. *)
Inductive err : Type :=
| EOF                       (* io.EOF *)
| ErrNew (msg : string).    (* errors.New(msg) *)

Definition error : Type := option err.

(** ** Slices and the heap of backing arrays *)

Abbreviation heap := (list (list byte)).

Record slice : Type := Slice {
  arr : option nat;   (* backing array; [None] for the nil slice *)
  off : Z;            (* index of element 0 in the backing array *)
  len : Z;
  cap : Z
}.

Definition nil_slice : slice := Slice None 0 0 0.

Definition is_nil (s : slice) : bool :=
  match arr s with None => true | Some _ => false end.

(** [s[lo:hi]]; [s[lo:]] is [reslice s lo (len s)] and [s[:hi]] is
    [reslice s 0 hi].  The upper bound is checked against the capacity. *)
Definition reslice (s : slice) (lo hi : Z) : result slice :=
  if (0 <=? lo) && (lo <=? hi) && (hi <=? cap s)
  then Ok (Slice (arr s) (off s + lo) (hi - lo) (cap s - lo))
  else Panic "slice bounds out of range".

Definition array_of (h : heap) (s : slice) : list byte :=
  match arr s with
  | Some a => default [] (h !! a)
  | None => []
  end.

(** [n] elements of [l] from index [i]. *)
Definition sub (l : list byte) (i n : Z) : list byte :=
  take (Z.to_nat n) (drop (Z.to_nat i) l).

(** The elements of a slice. *)
Definition bytes_of (h : heap) (s : slice) : list byte :=
  sub (array_of h s) (off s) (len s).

(** Overwrite [l] from index [i] with [v]. *)
Definition splice (l : list byte) (i : Z) (v : list byte) : list byte :=
  take (Z.to_nat i) l ++ v ++ drop (Z.to_nat i + length v) l.

Definition store (h : heap) (s : slice) (v : list byte) : heap :=
  match arr s with
  | Some a => <[a := splice (array_of h s) (off s) v]> h
  | None => h
  end.

(** The builtin [copy(dst, src)]: moves [min(len(dst), len(src))] elements
    (the source is read before the destination is written, so overlapping
    slices are handled as by memmove) and returns that count. *)
Definition copy (h : heap) (dst src : slice) : heap * Z :=
  let n := Z.min (len dst) (len src) in
  (store h dst (sub (bytes_of h src) 0 n), n).

(** [runtime.maxAlloc], the largest size the run time accepts for one
    allocation: [1 << 48] on the 64-bit targets whose heap addresses have
    48 bits (linux/amd64, linux/arm64).  [makeslice] panics above it. *)
Definition maxAlloc : Z := 2 ^ 48.

(** [make([]byte, n)], the allocation: a fresh zero-filled array. *)
Definition make (h : heap) (n : Z) : result (heap * slice) :=
  if n <? 0 then Panic "makeslice: len out of range"
  else Ok (h ++ [replicate (Z.to_nat n) x00],
           Slice (Some (length h)) 0 n n).

(** [make([]byte, n)] as [runtime.makeslice] runs it: the size is checked
    against [maxAlloc] before anything is allocated. *)
Definition makeslice (h : heap) (n : Z) : result (heap * slice) :=
  if (n <? 0) || (maxAlloc <? n) then Panic "makeslice: len out of range"
  else make h n.

(** [s[i]] *)
Definition index (h : heap) (s : slice) (i : Z) : result byte :=
  if (0 <=? i) && (i <? len s)
  then Ok (default x00 (array_of h s !! Z.to_nat (off s + i)))
  else Panic "index out of range".

(** [s[i] = c] *)
Definition set_index (h : heap) (s : slice) (i : Z) (c : byte) : result heap :=
  if (0 <=? i) && (i <? len s)
  then Ok (store h (Slice (arr s) (off s + i) 1 1) [c])
  else Panic "index out of range".

(** [x << k] on [int] with a signed shift count. *)
Definition shl (x k : Z) : result Z :=
  if k <? 0 then Panic "negative shift amount"
  else Ok (wrap (Z.shiftl x k)).

(** ** package alloc *)

Module alloc.

(** MaxSize is the maximum supported buffer size (64KiB). *)
Definition MaxSize : Z := 65536.

(** A [sync.Pool] of byte slices: the cached items and the size captured
    by its [New] closure, [func() any { return make([]byte, size) }]. *)
Record Pool : Type := mkPool {
  items : list slice;
  New_size : Z
}.

(** [Pool.Get]: "selects an arbitrary item from the Pool, removes it and
    returns it; Get may choose to ignore the pool and treat it as empty",
    in which case [New] is called.  The choice is the argument [pick]: the
    [pick]-th cached item when there is one, else a fresh one. *)
Definition Pool_Get (pick : nat) (h : heap) (p : Pool)
  : result (Pool * heap * slice) :=
  match items p !! pick with
  | Some s => Ok (mkPool (delete pick (items p)) (New_size p), h, s)
  | None => '(h', s) ← make h (New_size p); Ok (p, h', s)
  end.

Definition Pool_Put (p : Pool) (s : slice) : Pool :=
  mkPool (s :: items p) (New_size p).

(** Pool index i holds buffers of size 1<<i, for i in [0, 16]. *)
Record Allocator : Type := mkAllocator {
  buffers : list Pool
}.

Definition maxBits : Z := 16.

Definition NewAllocator : Allocator :=
  mkAllocator
    (map (fun i : nat => mkPool [] (wrap (Z.shiftl 1 (Z.of_nat i))))
         (seq 0 (Z.to_nat (maxBits + 1)))).

(** msb returns floor(log2(size)) for size > 0. *)
Definition msb (size : Z) : Z :=
  if size <=? 0 then 0 else int_sub (bits_Len (uint size)) 1.

Definition Allocator_Get (pick : nat) (a : Allocator) (h : heap) (size : Z)
  : result (Allocator * heap * slice) :=
  if (size <=? 0) || (size >? MaxSize) then Ok (a, h, nil_slice)
  else
    let idx := msb size in
    p2 ← shl 1 idx;
    let idx := if negb (size =? p2) then int_add idx 1 else idx in
    if (idx <? 0) || (idx >=? Z.of_nat (length (buffers a)))
    then Ok (a, h, nil_slice)
    else
      match buffers a !! Z.to_nat idx with
      | None => Panic "index out of range"
      | Some p =>
          '(p', h', buf) ← Pool_Get pick h p;
          r ← reslice buf 0 size;
          Ok (mkAllocator (<[Z.to_nat idx := p']> (buffers a)), h', r)
      end.

Definition Allocator_Put (a : Allocator) (buf : slice)
  : result (Allocator * error) :=
  if is_nil buf then Ok (a, Some (ErrNew "alloc: Put(nil)"))
  else
    let c := cap buf in
    if (c <=? 0) || (c >? MaxSize)
    then Ok (a, Some (ErrNew "alloc: Put() incorrect buffer size"))
    else if negb (Z.land c (int_sub c 1) =? 0)
    then Ok (a, Some (ErrNew
               "alloc: Put() incorrect buffer size (not power of two)"))
    else
      let idx := msb c in
      if (idx <? 0) || (idx >=? Z.of_nat (length (buffers a)))
      then Ok (a, Some (ErrNew "alloc: Put() invalid pool index"))
      else
        buf' ← reslice buf 0 c;
        match buffers a !! Z.to_nat idx with
        | None => Panic "index out of range"
        | Some p =>
            Ok (mkAllocator (<[Z.to_nat idx := Pool_Put p buf']> (buffers a)),
                None)
        end.

(** The package-level [Get] and [Put] act on [defaultAllocator]; the
    state of that variable is threaded as the [Allocator] argument. *)
Definition Get := Allocator_Get.
Definition Put := Allocator_Put.

End alloc.

(** ** package buffer *)

Module buffer.

Import alloc.

(** DefaultSize is the default buffer size used by New(). *)
Definition DefaultSize : Z := int_mul 32 1024.

(** Buffer is a simple growable byte buffer with read/write indexes. *)
Record Buffer : Type := mkBuffer {
  data : slice;
  start : Z;      (* read index *)
  end_ : Z;       (* write index (exclusive) *)
  pooled : bool
}.

(** The zero value [Buffer{}]. *)
Definition zero_Buffer : Buffer := mkBuffer nil_slice 0 0 false.

Definition NewSize (pick : nat) (a : Allocator) (h : heap) (size : Z)
  : result (Allocator * heap * Buffer) :=
  let size := if size <? 0 then 0 else size in
  if size =? 0 then Ok (a, h, mkBuffer nil_slice 0 0 false)
  else
    '(a', h', d) ← alloc.Get pick a h size;
    if negb (is_nil d) then
      d' ← reslice d 0 size;
      Ok (a', h', mkBuffer d' 0 0 true)
    else
      '(h'', d') ← makeslice h' size;
      Ok (a', h'', mkBuffer d' 0 0 false).

Definition New (pick : nat) (a : Allocator) (h : heap)
  : result (Allocator * heap * Buffer) :=
  NewSize pick a h DefaultSize.

Definition FromBytes (s : slice) : Buffer :=
  mkBuffer s 0 (len s) false.

Definition Bytes (b : Buffer) : result slice :=
  reslice (data b) (start b) (end_ b).

Definition Len (b : Buffer) : Z := int_sub (end_ b) (start b).

Definition Cap (b : Buffer) : Z := len (data b).

Definition IsEmpty (b : Buffer) : bool := Len b =? 0.

Definition Reset (b : Buffer) : Buffer :=
  mkBuffer (data b) 0 0 (pooled b).

(** The tail of [grow], from "Need to allocate a bigger slice" on. *)
Definition grow_alloc (h : heap) (b : Buffer) (n : Z) : result (heap * Buffer) :=
  let curLen := Len b in
  let newCap := int_add curLen n in
  let newCap :=
    if newCap <? int_mul (len (data b)) 2 then
      let newCap := int_mul (len (data b)) 2 in
      if newCap =? 0 then n else newCap
    else newCap in
  '(h1, newData) ← make h newCap;
  h2 ← (if curLen >? 0
        then src ← reslice (data b) (start b) (end_ b);
             Ok (fst (copy h1 newData src))
        else Ok h1);
  Ok (h2, mkBuffer newData 0 curLen false).

(** grow ensures there is at least n more bytes of free space for writing. *)
Definition grow (h : heap) (b : Buffer) (n : Z) : result (heap * Buffer) :=
  if n <=? 0 then Ok (h, b)
  else
    let free := int_sub (len (data b)) (end_ b) in
    if free >=? n then Ok (h, b)
    else if (start b >? 0) && (Len b >? 0) then
      src ← reslice (data b) (start b) (end_ b);
      let h1 := fst (copy h (data b) src) in
      let b1 := mkBuffer (data b) 0 (Len b) (pooled b) in
      let free := int_sub (len (data b1)) (end_ b1) in
      if free >=? n then Ok (h1, b1) else grow_alloc h1 b1 n
    else grow_alloc h b n.

Definition Extend (h : heap) (b : Buffer) (n : Z)
  : result (heap * Buffer * slice) :=
  if n <? 0 then Panic "buffer: negative extend size"
  else
    '(h1, b1) ← grow h b n;
    let start := end_ b1 in
    let b2 := mkBuffer (data b1) (buffer.start b1) (int_add (end_ b1) n)
                       (pooled b1) in
    r ← reslice (data b2) start (end_ b2);
    Ok (h1, b2, r).

Definition Write (h : heap) (b : Buffer) (p : slice)
  : result (heap * Buffer * Z * error) :=
  if len p =? 0 then Ok (h, b, 0, None)
  else
    '(h1, b1) ← grow h b (len p);
    dst ← reslice (data b1) (end_ b1) (len (data b1));
    let '(h2, n) := copy h1 dst p in
    Ok (h2, mkBuffer (data b1) (start b1) (int_add (end_ b1) n) (pooled b1),
        n, None).

Definition WriteByte (h : heap) (b : Buffer) (c : byte)
  : result (heap * Buffer * error) :=
  '(h1, b1) ← grow h b 1;
  h2 ← set_index h1 (data b1) (end_ b1) c;
  Ok (h2, mkBuffer (data b1) (start b1) (int_add (end_ b1) 1) (pooled b1),
      None).

(** The cursor update shared by the three read operations:
    [if b.start == b.end { b.start = 0; b.end = 0 }] after [b.start = st]. *)
Definition consumed (b : Buffer) (st : Z) : Buffer :=
  if st =? end_ b then mkBuffer (data b) 0 0 (pooled b)
  else mkBuffer (data b) st (end_ b) (pooled b).

Definition Read (h : heap) (b : Buffer) (p : slice)
  : result (heap * Buffer * Z * error) :=
  if IsEmpty b then Ok (h, b, 0, Some EOF)
  else
    src ← reslice (data b) (start b) (end_ b);
    let '(h1, n) := copy h p src in
    Ok (h1, consumed b (int_add (start b) n), n, None).

Definition ReadByte (h : heap) (b : Buffer) : result (Buffer * byte * error) :=
  if IsEmpty b then Ok (b, x00, Some EOF)
  else
    c ← index h (data b) (start b);
    Ok (consumed b (int_add (start b) 1), c, None).

Definition To (b : Buffer) (n : Z) : result slice :=
  if n <=? 0 then Ok nil_slice
  else
    let n := if n >? Len b then Len b else n in
    reslice (data b) (start b) (int_add (start b) n).

Definition ReadBytes (h : heap) (b : Buffer) (n : Z)
  : result (heap * Buffer * slice * error) :=
  if n <? 0 then Ok (h, b, nil_slice, Some (ErrNew "buffer: negative length"))
  else if Len b <? n then Ok (h, b, nil_slice, Some EOF)
  else
    '(h1, out) ← make h n;
    src ← reslice (data b) (start b) (int_add (start b) n);
    let h2 := fst (copy h1 out src) in
    Ok (h2, consumed b (int_add (start b) n), out, None).

(** The receiver is a pointer: [None] is the nil [*Buffer]. *)
Definition Release (a : Allocator) (b : option Buffer)
  : result (Allocator * option Buffer) :=
  match b with
  | None => Ok (a, None)
  | Some b =>
      a' ← (if pooled b && negb (is_nil (data b))
            then '(a', _) ← alloc.Put a (data b); Ok a'
            else Ok a);
      Ok (a', Some zero_Buffer)
  end.

(** *** What a call leaves behind

    The methods have a pointer receiver, so a caller that recovers from a
    panic still holds the buffer, with every assignment made before the
    panicking expression.  The three definitions below follow [grow] and
    [Extend] statement by statement and return the heap and the receiver
    as the call leaves them, together with its outcome; the allocation is
    the checked one, [makeslice]. *)

(** The tail of [grow], from "Need to allocate a bigger slice" on: the
    receiver is assigned only after [make] and the slice expression. *)
Definition grow_alloc_run (h : heap) (b : Buffer) (n : Z)
  : heap * Buffer * result unit :=
  let curLen := Len b in
  let newCap := int_add curLen n in
  let newCap :=
    if newCap <? int_mul (len (data b)) 2 then
      let newCap := int_mul (len (data b)) 2 in
      if newCap =? 0 then n else newCap
    else newCap in
  match makeslice h newCap with
  | Panic m => (h, b, Panic m)
  | Ok (h1, newData) =>
      if curLen >? 0 then
        match reslice (data b) (start b) (end_ b) with
        | Panic m => (h1, b, Panic m)
        | Ok src =>
            (fst (copy h1 newData src), mkBuffer newData 0 curLen false, Ok tt)
        end
      else (h1, mkBuffer newData 0 curLen false, Ok tt)
  end.

Definition grow_run (h : heap) (b : Buffer) (n : Z)
  : heap * Buffer * result unit :=
  if n <=? 0 then (h, b, Ok tt)
  else
    let free := int_sub (len (data b)) (end_ b) in
    if free >=? n then (h, b, Ok tt)
    else if (start b >? 0) && (Len b >? 0) then
      match reslice (data b) (start b) (end_ b) with
      | Panic m => (h, b, Panic m)
      | Ok src =>
          let h1 := fst (copy h (data b) src) in
          let b1 := mkBuffer (data b) 0 (Len b) (pooled b) in
          let free := int_sub (len (data b1)) (end_ b1) in
          if free >=? n then (h1, b1, Ok tt) else grow_alloc_run h1 b1 n
      end
    else grow_alloc_run h b n.

(** [b.end += n] is stored before [b.data[start:b.end]] is evaluated. *)
Definition Extend_run (h : heap) (b : Buffer) (n : Z)
  : heap * Buffer * result slice :=
  if n <? 0 then (h, b, Panic "buffer: negative extend size")
  else
    match grow_run h b n with
    | (h1, b1, Panic m) => (h1, b1, Panic m)
    | (h1, b1, Ok _) =>
        let start := end_ b1 in
        let b2 := mkBuffer (data b1) (buffer.start b1) (int_add (end_ b1) n)
                           (pooled b1) in
        (h1, b2, reslice (data b2) start (end_ b2))
    end.

End buffer.

(** ** Specification vocabulary *)

(** [c] is the smallest power of two that is at least [s]. *)
Definition is_pow2 (c : Z) : Prop := exists k, 0 <= k /\ c = 2 ^ k.

Definition smallest_pow2_ge (c s : Z) : Prop :=
  is_pow2 c /\ s <= c /\ forall j, 0 <= j -> s <= 2 ^ j -> c <= 2 ^ j.

(** An entry cached in the pool of class [i]: a non-nil slice whose length
    and capacity are both [2^i]. *)
Definition pool_entry (i : nat) (s : slice) : Prop :=
  is_nil s = false /\ len s = 2 ^ Z.of_nat i /\ cap s = 2 ^ Z.of_nat i.

(** The allocator as [NewAllocator], [Get] and [Put] keep it: 17 pools,
    pool [i] makes and holds slices of size [2^i]. *)
Definition alloc_inv (a : alloc.Allocator) : Prop :=
  length (alloc.buffers a) = 17%nat /\
  forall (i : nat) (p : alloc.Pool),
    alloc.buffers a !! i = Some p ->
    alloc.New_size p = 2 ^ Z.of_nat i /\ Forall (pool_entry i) (alloc.items p).

(** A slice header as the Go run time keeps it. *)
Definition slice_ok (s : slice) : Prop :=
  0 <= off s /\ 0 <= len s <= cap s /\ cap s <= int_max.

(** A slice of the heap [h]: its window lies inside its backing array;
    only the nil slice has no array. *)
Definition slice_wf (h : heap) (s : slice) : Prop :=
  slice_ok s /\
  off s + cap s <= Z.of_nat (length (array_of h s)) /\
  match arr s with
  | Some a => (a < length h)%nat
  | None => True
  end.

(** The invariant of the cursors of a [Buffer]. *)
Definition buf_inv (b : buffer.Buffer) : Prop :=
  0 <= buffer.start b <= buffer.end_ b /\
  buffer.end_ b <= len (buffer.data b).

Definition buf_wf (h : heap) (b : buffer.Buffer) : Prop :=
  slice_wf h (buffer.data b) /\ buf_inv b.

(** The readable content, [b.Bytes()] read in the heap. *)
Definition readable (h : heap) (b : buffer.Buffer) : list byte :=
  match buffer.Bytes b with
  | Ok s => bytes_of h s
  | Panic _ => []
  end.

(** The heap after the compaction step of [grow]:
    [copy(b.data, b.data[b.start:b.end])]. *)
Definition compacted (h : heap) (b : buffer.Buffer) : heap :=
  store h (buffer.data b) (readable h b).

(** A value of type [int]. *)
Definition is_int (z : Z) : Prop := int_min <= z <= int_max.



(** The buffers that the exported operations of the package can produce,
    whatever the heap and the allocator look like at each call.  Argument
    slices are Go slices ([slice_ok]) and integer arguments are [int]s. *)
Inductive reachable : buffer.Buffer -> Prop :=
| R_New pick a h a' h' b :
    buffer.New pick a h = Ok (a', h', b) -> reachable b
| R_NewSize pick a h size a' h' b :
    is_int size ->
    buffer.NewSize pick a h size = Ok (a', h', b) -> reachable b
| R_FromBytes s :
    slice_ok s -> reachable (buffer.FromBytes s)
| R_Write b h p h' b' n e :
    reachable b -> slice_ok p ->
    buffer.Write h b p = Ok (h', b', n, e) -> reachable b'
| R_WriteByte b h c h' b' e :
    reachable b ->
    buffer.WriteByte h b c = Ok (h', b', e) -> reachable b'
| R_Extend b h n h' b' r :
    reachable b -> is_int n ->
    buffer.Extend h b n = Ok (h', b', r) -> reachable b'
| R_Read b h p h' b' n e :
    reachable b -> slice_ok p ->
    buffer.Read h b p = Ok (h', b', n, e) -> reachable b'
| R_ReadByte b h b' c e :
    reachable b ->
    buffer.ReadByte h b = Ok (b', c, e) -> reachable b'
| R_ReadBytes b h n h' b' out e :
    reachable b -> is_int n ->
    buffer.ReadBytes h b n = Ok (h', b', out, e) -> reachable b'
| R_To b n r :
    reachable b -> buffer.To b n = Ok r -> reachable b
| R_Reset b :
    reachable b -> reachable (buffer.Reset b)
| R_Release b a a' b' :
    reachable b ->
    buffer.Release a (Some b) = Ok (a', Some b') -> reachable b'.


(** The cursor invariant together with what the slice header of the
    storage always satisfies. *)
Definition hdr_inv (b : buffer.Buffer) : Prop :=
  buf_inv b /\
  len (buffer.data b) <= cap (buffer.data b) /\
  len (buffer.data b) <= int_max.

(** The allocator in a heap: moreover every cached slice is a slice of
    the heap. *)
Definition alloc_wf (h : heap) (a : alloc.Allocator) : Prop :=
  alloc_inv a /\
  forall (i : nat) (p : alloc.Pool),
    alloc.buffers a !! i = Some p -> Forall (slice_wf h) (alloc.items p).

(** * Properties *)

(** ** Integer arithmetic *)

Ltac int_consts :=
  unfold int_add, int_sub, int_mul, wrap, uint, int_min, int_max in *;
  change (2 ^ 64) with 18446744073709551616 in *;
  change (2 ^ 63) with 9223372036854775808 in *.

Lemma wrap_id (z : Z) : int_min <= z <= int_max -> wrap z = z.
Proof. int_consts. Z.div_mod_to_equations. lia. Qed.

Lemma wrap_range (z : Z) : int_min <= wrap z <= int_max.
Proof. int_consts. Z.div_mod_to_equations. lia. Qed.

Lemma wrap_over (z : Z) :
  int_max < z <= int_max + 2 ^ 63 -> wrap z = z - 2 ^ 64.
Proof. int_consts. Z.div_mod_to_equations. lia. Qed.

(** ** package alloc *)

Section AllocFacts.

Import alloc.

(** The test [c&(c-1) == 0] of [Put] recognises the powers of two. *)
Lemma land_pred_pow2 (c : Z) :
  0 < c -> Z.land c (c - 1) = 0 <-> is_pow2 c.
Proof.
  intros Hc. split.
  - intros Hl. exists (Z.log2 c). split; [apply Z.log2_nonneg|].
    destruct (Z.log2_spec c Hc) as [Hlo Hhi].
    destruct (Z.eq_dec c (2 ^ Z.log2 c)) as [|Hne]; [assumption|exfalso].
    assert (Hk : Z.log2 (c - 1) = Z.log2 c).
    { apply Z.log2_unique; [apply Z.log2_nonneg|].
      rewrite <- Z.add_1_r in Hhi |- *. lia. }
    assert (Hb : Z.testbit (Z.land c (c - 1)) (Z.log2 c) = true).
    { rewrite Z.land_spec, (Z.bit_log2 c) by lia. simpl.
      rewrite <- Hk. apply Z.bit_log2.
      pose proof (Z.pow_pos_nonneg 2 (Z.log2 c) ltac:(lia) (Z.log2_nonneg c)).
      lia. }
    rewrite Hl, Z.bits_0 in Hb. discriminate.
  - intros (k & Hk & ->).
    replace (2 ^ k - 1) with (Z.ones k) by (rewrite Z.ones_equiv; lia).
    rewrite Z.land_ones by assumption.
    apply Z.mod_same. pose proof (Z.pow_pos_nonneg 2 k); lia.
Qed.

Lemma msb_log2 (size : Z) : 0 < size <= int_max -> msb size = Z.log2 size.
Proof.
  intros Hs. unfold msb, bits_Len.
  assert (Hu : uint size = size).
  { revert Hs. int_consts. intros Hs. apply Z.mod_small. lia. }
  rewrite Hu.
  destruct (size <=? 0) eqn:E1; [lia|].
  destruct (size =? 0) eqn:E2; [lia|].
  unfold int_sub. rewrite wrap_id; [lia|].
  pose proof (Z.log2_nonneg size). pose proof (Z.log2_lt_lin size).
  revert Hs. int_consts. lia.
Qed.

Lemma msb_pow2 (k : Z) : 0 <= k <= 62 -> msb (2 ^ k) = k.
Proof.
  intros Hk. rewrite msb_log2; [apply Z.log2_pow2; lia|].
  split; [apply Z.pow_pos_nonneg; lia|].
  assert (2 ^ k <= 2 ^ 62) by (apply Z.pow_le_mono_r; lia).
  revert H. int_consts. change (2 ^ 62) with 4611686018427387904. lia.
Qed.

Lemma shl_1 (k : Z) : 0 <= k <= 62 -> shl 1 k = Ok (2 ^ k).
Proof.
  intros Hk. unfold shl. destruct (k <? 0) eqn:E; [lia|].
  rewrite Z.shiftl_1_l, wrap_id; [reflexivity|].
  assert (0 < 2 ^ k) by (apply Z.pow_pos_nonneg; lia).
  assert (2 ^ k <= 2 ^ 62) by (apply Z.pow_le_mono_r; lia).
  revert H H0. int_consts. change (2 ^ 62) with 4611686018427387904. lia.
Qed.

(** The class that [Get] computes for a size in range: its index is at
    most 16 and its capacity is the smallest power of two that fits. *)
Lemma class_index (s : Z) :
  1 <= s <= 65536 ->
  exists i : Z,
    0 <= i <= 16 /\
    (if negb (s =? 2 ^ Z.log2 s) then int_add (Z.log2 s) 1 else Z.log2 s) = i /\
    smallest_pow2_ge (2 ^ i) s.
Proof.
  intros Hs.
  assert (Hs0 : 0 < s) by lia.
  destruct (Z.log2_spec s Hs0) as [Hlo Hhi].
  pose proof (Z.log2_nonneg s) as Hk0.
  assert (Hk16 : Z.log2 s <= 16).
  { change 16 with (Z.log2 65536). apply Z.log2_le_mono. lia. }
  destruct (s =? 2 ^ Z.log2 s) eqn:E; simpl.
  - apply Z.eqb_eq in E. exists (Z.log2 s).
    split; [lia|]. split; [reflexivity|]. split; [|split].
    + exists (Z.log2 s). split; [lia | reflexivity].
    + lia.
    + intros j _ Hj. lia.
  - apply Z.eqb_neq in E.
    assert (Hlt : Z.log2 s < 16).
    { destruct (Z.eq_dec (Z.log2 s) 16) as [E16|]; [|lia].
      rewrite E16 in Hlo, E. change (2 ^ 16) with 65536 in Hlo, E. lia. }
    exists (Z.log2 s + 1). unfold int_add.
    rewrite wrap_id by (int_consts; lia).
    rewrite <- Z.add_1_r in Hhi.
    split; [lia|]. split; [reflexivity|]. split; [|split].
    + exists (Z.log2 s + 1). split; [lia | reflexivity].
    + lia.
    + intros j Hj0 Hj.
      apply Z.pow_le_mono_r; [lia|].
      destruct (Z_lt_le_dec j (Z.log2 s + 1)) as [Hjl|]; [exfalso|lia].
      assert (2 ^ j <= 2 ^ Z.log2 s) by (apply Z.pow_le_mono_r; lia).
      lia.
Qed.

Lemma Pool_Get_entry (pick : nat) (h : heap) (p : Pool) (i : nat) :
  New_size p = 2 ^ Z.of_nat i -> Forall (pool_entry i) (items p) ->
  exists p' h' buf,
    Pool_Get pick h p = Ok (p', h', buf) /\
    pool_entry i buf /\
    New_size p' = 2 ^ Z.of_nat i /\ Forall (pool_entry i) (items p') /\
    ((h' = h /\ items p !! pick = Some buf /\
      p' = mkPool (delete pick (items p)) (New_size p)) \/
     (h' = h ++ [replicate (Z.to_nat (2 ^ Z.of_nat i)) x00] /\
      buf = Slice (Some (length h)) 0 (2 ^ Z.of_nat i) (2 ^ Z.of_nat i) /\
      p' = p /\ items p !! pick = None)).
Proof.
  intros Hn Hf. unfold Pool_Get.
  destruct (items p !! pick) as [s|] eqn:E.
  - eexists _, _, _. split; [reflexivity|]. simpl.
    split; [|split; [assumption|split; [|left; repeat split]]].
    + rewrite Forall_lookup in Hf. exact (Hf _ _ E).
    + apply Forall_delete. assumption.
  - unfold make. rewrite Hn.
    assert (Hp : 0 < 2 ^ Z.of_nat i) by (apply Z.pow_pos_nonneg; lia).
    destruct (2 ^ Z.of_nat i <? 0) eqn:E0; [lia|]. simpl.
    eexists _, _, _. split; [reflexivity|].
    split; [|split; [assumption|split; [assumption|right; repeat split]]].
    repeat split.
Qed.

Lemma alloc_inv_insert (a : Allocator) (i : nat) (p : Pool) :
  alloc_inv a ->
  New_size p = 2 ^ Z.of_nat i -> Forall (pool_entry i) (items p) ->
  alloc_inv (mkAllocator (<[i := p]> (buffers a))).
Proof.
  intros [Hl Hp] Hn Hf. split; simpl.
  - rewrite length_insert. assumption.
  - intros j q Hq. destruct (decide (i = j)) as [->|Hne].
    + apply list_lookup_insert_Some in Hq as [(_ & -> & _)|(? & _)]; [|done].
      split; assumption.
    + rewrite list_lookup_insert_ne in Hq by assumption. apply Hp, Hq.
Qed.

Lemma NewAllocator_inv : alloc_inv NewAllocator.
Proof.
  split; [reflexivity|].
  intros i p Hp.
  assert (Hi : (i < 17)%nat).
  { apply lookup_lt_Some in Hp. exact Hp. }
  do 17 (destruct i as [|i];
         [inversion Hp; subst; split; [reflexivity | constructor]|]).
  lia.
Qed.

(** What [Get] does for a size in range: it takes an entry [buf] from
    the pool of the class of [s], cached or fresh, and cuts it to length
    [s]. *)
Lemma Allocator_Get_in_range (pick : nat) (a : Allocator) (h : heap) (s : Z) :
  alloc_inv a -> 1 <= s <= 65536 ->
  exists a' h' r,
    Allocator_Get pick a h s = Ok (a', h', r) /\
    is_nil r = false /\ len r = s /\ smallest_pow2_ge (cap r) s /\
    alloc_inv a' /\
    exists (i : nat) (p p' : Pool) (buf : slice),
      buffers a !! i = Some p /\
      a' = mkAllocator (<[i := p']> (buffers a)) /\
      r = Slice (arr buf) (off buf) s (cap buf) /\
      cap buf = 2 ^ Z.of_nat i /\ (i <= 16)%nat /\
      ((h' = h /\ items p !! pick = Some buf /\
        p' = mkPool (delete pick (items p)) (New_size p)) \/
       (h' = h ++ [replicate (Z.to_nat (2 ^ Z.of_nat i)) x00] /\
        buf = Slice (Some (length h)) 0 (2 ^ Z.of_nat i) (2 ^ Z.of_nat i) /\
        p' = p /\ items p !! pick = None)).
Proof.
  intros Ha Hs. unfold Allocator_Get, MaxSize.
  destruct ((s <=? 0) || (s >? 65536)) eqn:E; [lia|]. clear E.
  assert (Hmsb : msb s = Z.log2 s).
  { apply msb_log2. int_consts. lia. }
  rewrite Hmsb.
  destruct (class_index s Hs) as (i & Hi & Hidx & Hsm).
  assert (Hk16 : 0 <= Z.log2 s <= 62).
  { split; [apply Z.log2_nonneg|].
    change 62 with (Z.log2 (2 ^ 62)). apply Z.log2_le_mono.
    change (2 ^ 62) with 4611686018427387904. lia. }
  rewrite shl_1 by assumption. simpl. rewrite Hidx.
  destruct Ha as [Hl Hp]. rewrite Hl. change (Z.of_nat 17) with 17.
  destruct ((i <? 0) || (i >=? 17)) eqn:E; [lia|]. clear E.
  destruct (buffers a !! Z.to_nat i) as [p|] eqn:Ep.
  2:{ apply lookup_ge_None in Ep. lia. }
  destruct (Hp _ _ Ep) as [Hn Hf].
  destruct (Pool_Get_entry pick h p _ Hn Hf)
    as (p' & h' & buf & -> & (Hnil & Hlen & Hcap) & Hn' & Hf' & Hcase).
  simpl. destruct Hsm as (Hpow & Hle & Hmin).
  unfold reslice. rewrite Hcap, Z2Nat.id by lia.
  destruct ((0 <=? 0) && (0 <=? s) && (s <=? 2 ^ i)) eqn:E; [|lia]. clear E.
  simpl. eexists _, _, _. split; [reflexivity|]. simpl.
  rewrite !Z.sub_0_r, Z.add_0_r.
  split; [exact Hnil|]. split; [reflexivity|].
  split; [split; [exact Hpow | split; assumption]|].
  split; [apply alloc_inv_insert; [split|..]; assumption|].
  exists (Z.to_nat i), p, p', buf.
  split; [exact Ep|]. split; [reflexivity|].
  split; [rewrite Hcap, Z2Nat.id by lia; reflexivity|].
  split; [exact Hcap|]. split; [lia | exact Hcase].
Qed.

(** The two outcomes of [Put]. *)
Lemma Allocator_Put_cases (a : Allocator) (buf : slice) :
  alloc_inv a ->
  ((is_nil buf = true \/ cap buf < 1 \/ cap buf > 65536 \/
    ~ is_pow2 (cap buf)) /\
   exists e, Allocator_Put a buf = Ok (a, Some e)) \/
  (is_nil buf = false /\ 1 <= cap buf <= 65536 /\ is_pow2 (cap buf) /\
   exists (i : nat) (p : Pool),
     Z.of_nat i = Z.log2 (cap buf) /\ cap buf = 2 ^ Z.of_nat i /\
     buffers a !! i = Some p /\
     Allocator_Put a buf =
       Ok (mkAllocator
             (<[i := mkPool (Slice (arr buf) (off buf) (cap buf) (cap buf)
                               :: items p) (New_size p)]> (buffers a)),
           None)).
Proof.
  intros [Hl Hp]. unfold Allocator_Put, MaxSize.
  destruct (is_nil buf) eqn:En.
  { left. split; [left; reflexivity | eexists; reflexivity]. }
  destruct ((cap buf <=? 0) || (cap buf >? 65536)) eqn:Er.
  { left. split; [|eexists; reflexivity].
    destruct (Z_lt_le_dec (cap buf) 1); [right; left; lia|].
    right. right. left. lia. }
  assert (Hsub : int_sub (cap buf) 1 = cap buf - 1).
  { apply wrap_id. int_consts. lia. }
  rewrite Hsub.
  destruct (Z.land (cap buf) (cap buf - 1) =? 0) eqn:El; simpl.
  2:{ left. split; [|eexists; reflexivity].
      right. right. right. intros Hpow.
      apply land_pred_pow2 in Hpow; [|lia]. lia. }
  right. apply Z.eqb_eq in El. apply land_pred_pow2 in El; [|lia].
  split; [reflexivity|]. split; [lia|]. split; [exact El|].
  destruct El as (k & Hk0 & Hk).
  assert (Hk16 : k <= 16).
  { destruct (Z_le_gt_dec k 16) as [|Hgt]; [assumption|exfalso].
    assert (2 ^ 17 <= 2 ^ k) by (apply Z.pow_le_mono_r; lia).
    change (2 ^ 17) with 131072 in *. lia. }
  assert (Hmsb : msb (cap buf) = k) by (rewrite Hk; apply msb_pow2; lia).
  rewrite Hmsb, Hl. change (Z.of_nat 17) with 17.
  destruct ((k <? 0) || (k >=? 17)) eqn:E; [lia|]. clear E.
  unfold reslice.
  destruct ((0 <=? 0) && (0 <=? cap buf) && (cap buf <=? cap buf)) eqn:E;
    [|lia]. clear E. cbn [mbind result_bind].
  destruct (buffers a !! Z.to_nat k) as [p|] eqn:Ep.
  2:{ apply lookup_ge_None in Ep. lia. }
  exists (Z.to_nat k), p. rewrite Z2Nat.id by lia.
  split; [rewrite Hk; symmetry; apply Z.log2_pow2; lia|].
  split; [exact Hk|]. split; [exact Ep|].
  unfold Pool_Put. rewrite Z.add_0_r, !Z.sub_0_r. reflexivity.
Qed.

(** [Put] never panics and keeps the allocator in shape. *)
Lemma Allocator_Put_total (a : Allocator) (buf : slice) :
  alloc_inv a ->
  exists a' e, Allocator_Put a buf = Ok (a', e) /\ alloc_inv a' /\
    (e <> None -> a' = a).
Proof.
  intros Ha.
  destruct (Allocator_Put_cases a buf Ha)
    as [(_ & e & ->) | (Hn & Hr & _ & i & p & _ & Hc & Hp & ->)].
  - exists a, (Some e). split; [reflexivity|]. split; [exact Ha|]. reflexivity.
  - eexists _, None. split; [reflexivity|]. split; [|intros H; congruence].
    destruct (proj2 Ha _ _ Hp) as [Hns Hf].
    apply alloc_inv_insert; [exact Ha | exact Hns |]. simpl.
    constructor; [|exact Hf]. repeat split; simpl; try assumption.
Qed.

Lemma smallest_pow2_ge_unique (c c' s : Z) :
  smallest_pow2_ge c s -> smallest_pow2_ge c' s -> c = c'.
Proof.
  intros ((k & Hk & ->) & Hle & Hmin) ((k' & Hk' & ->) & Hle' & Hmin').
  pose proof (Hmin k' Hk' Hle'). pose proof (Hmin' k Hk Hle). lia.
Qed.

(** Power-of-two classes waste less than half of a region. *)
Lemma smallest_pow2_ge_lt_double (c s : Z) :
  1 <= s -> smallest_pow2_ge c s -> c < 2 * s.
Proof.
  intros Hs ((k & Hk & ->) & Hle & Hmin).
  destruct (Z.eq_dec k 0) as [->|Hk0]; [simpl; lia|].
  destruct (Z_lt_le_dec (2 ^ (k - 1)) s) as [Hlt|Hge].
  - replace k with (Z.succ (k - 1)) at 1 by lia.
    rewrite Z.pow_succ_r by lia. lia.
  - exfalso. pose proof (Hmin (k - 1) ltac:(lia) Hge) as Hc.
    assert (2 ^ (k - 1) < 2 ^ k) by (apply Z.pow_lt_mono_r; lia). lia.
Qed.

(** A region given back with [Put] is what the next [Get] of its class
    returns when the pool hands out its most recent entry, and the
    allocator is then as it was before the [Put]. *)
Lemma Put_Get_reuse (a : Allocator) (buf : slice) (s : Z) (h : heap) :
  alloc_inv a -> is_nil buf = false -> 1 <= s -> cap buf <= 65536 ->
  smallest_pow2_ge (cap buf) s ->
  exists a',
    Allocator_Put a buf = Ok (a', None) /\ alloc_inv a' /\
    Allocator_Get 0 a' h s =
      Ok (a, h, Slice (arr buf) (off buf) s (cap buf)).
Proof.
  intros Ha Hn Hs Hmax Hsm. pose proof Hsm as (Hpow & Hle & _).
  destruct (Allocator_Put_cases a buf Ha)
    as [([?|[?|[?|Hnp]]] & _) | (_ & Hr & _ & i & p & _ & Hc & Hp & Hput)];
    [congruence | lia | lia | exact (False_ind _ (Hnp Hpow)) |].
  destruct (Allocator_Put_total a buf Ha) as (a' & e & Hput' & Ha' & _).
  rewrite Hput in Hput'. injection Hput' as Ea' Ee. subst e.
  exists a'. split; [rewrite Hput, Ea'; reflexivity|]. split; [exact Ha'|].
  destruct (Allocator_Get_in_range 0 a' h s Ha' ltac:(lia))
    as (a2 & h2 & r & Hget & _ & _ & Hsm' & _ &
        i' & p0 & p' & buf' & Hp0 & -> & -> & Hcap' & Hi' & Hcase).
  cbn [cap] in Hsm'.
  pose proof (smallest_pow2_ge_unique _ _ _ Hsm Hsm') as Hcc.
  assert (Hii : i' = i).
  { rewrite Hc, Hcap' in Hcc.
    apply Z.pow_inj_r in Hcc; lia. }
  subst i'. subst a'. cbn [buffers] in Hp0.
  rewrite list_lookup_insert_eq in Hp0 by (apply lookup_lt_Some in Hp; exact Hp).
  injection Hp0 as <-. cbn [items New_size] in Hcase.
  destruct Hcase as [(-> & Hpick & ->) | (_ & _ & _ & Hnone)];
    [|discriminate Hnone].
  simpl in Hpick. injection Hpick as <-.
  rewrite Hget. cbn [arr off cap delete]. simpl.
  rewrite list_insert_insert_eq.
  replace (mkPool (items p) (New_size p)) with p by (destruct p; reflexivity).
  rewrite list_insert_id by exact Hp.
  destruct a. reflexivity.
Qed.

End AllocFacts.

Section AllocClaims.

Import alloc.

(** C1. [Get(s)] returns nil exactly when [s <= 0] or [s > 65536]; for
    [s] in [1, 65536] the slice returned has length [s] and its capacity is
    the smallest power of two that is at least [s].  This holds in every
    allocator state that [NewAllocator], [Get] and [Put] produce, and for
    every choice the pool makes between a cached and a fresh slice. *)
Theorem Allocator_Get_size_class
    (pick : nat) (a : Allocator) (h : heap) (s : Z) :
  alloc_inv a ->
  exists a' h' r,
    Allocator_Get pick a h s = Ok (a', h', r) /\
    (is_nil r = true <-> s <= 0 \/ s > 65536) /\
    (1 <= s <= 65536 -> len r = s /\ smallest_pow2_ge (cap r) s).
Proof.
  intros Ha.
  destruct (Z_le_gt_dec s 0) as [Hs0|Hs0];
    [|destruct (Z_le_gt_dec s 65536) as [Hs1|Hs1]].
  - exists a, h, nil_slice. unfold Allocator_Get, MaxSize.
    destruct ((s <=? 0) || (s >? 65536)) eqn:E; [|lia].
    split; [reflexivity|]. split; [|lia].
    split; [intros _; left; exact Hs0 | reflexivity].
  - destruct (Allocator_Get_in_range pick a h s Ha ltac:(lia))
      as (a' & h' & r & Hget & Hnil & Hlen & Hcap & _).
    exists a', h', r. split; [exact Hget|]. split.
    + rewrite Hnil. split; [discriminate | lia].
    + intros _. split; assumption.
  - exists a, h, nil_slice. unfold Allocator_Get, MaxSize.
    destruct ((s <=? 0) || (s >? 65536)) eqn:E; [|lia].
    split; [reflexivity|]. split; [|lia].
    split; [intros _; right; exact Hs1 | reflexivity].
Qed.

Lemma Allocator_Get_size_class_witness :
  alloc_inv NewAllocator /\
  exists a' h' r,
    Allocator_Get 0 NewAllocator [] 3 = Ok (a', h', r) /\
    (is_nil r = true <-> 3 <= 0 \/ 3 > 65536) /\
    (1 <= 3 <= 65536 -> len r = 3 /\ smallest_pow2_ge (cap r) 3).
Proof.
  split; [exact NewAllocator_inv|].
  apply (Allocator_Get_size_class 0 NewAllocator [] 3), NewAllocator_inv.
Defined.

(** C4. [Put(buf)] reports an error and leaves every pool as it was when
    [buf] is nil, when its capacity lies outside [1, 65536] or when its
    capacity is not a power of two; for a capacity [2^i] in [1, 65536]
    (65536 included) it succeeds and pool [i = log2(capacity)] receives
    the slice with its length reset to the capacity. *)
Theorem Allocator_Put_validation (a : Allocator) (buf : slice) :
  alloc_inv a ->
  (is_nil buf = true \/ cap buf < 1 \/ cap buf > 65536 \/ ~ is_pow2 (cap buf) ->
   exists e, Allocator_Put a buf = Ok (a, Some e)) /\
  (is_nil buf = false -> 1 <= cap buf <= 65536 -> is_pow2 (cap buf) ->
   exists (i : nat) (p : Pool),
     Z.of_nat i = Z.log2 (cap buf) /\ cap buf = 2 ^ Z.of_nat i /\
     buffers a !! i = Some p /\
     Allocator_Put a buf =
       Ok (mkAllocator
             (<[i := mkPool (Slice (arr buf) (off buf) (cap buf) (cap buf)
                               :: items p) (New_size p)]> (buffers a)),
           None)).
Proof.
  intros Ha.
  destruct (Allocator_Put_cases a buf Ha)
    as [(Hbad & Herr) | (Hn & Hr & Hpow & Hput)]; split.
  - intros _. exact Herr.
  - intros Hn Hr Hpow. exfalso.
    destruct Hbad as [?|[?|[?|Hnp]]]; [congruence|lia|lia|exact (Hnp Hpow)].
  - intros [?|[?|[?|Hnp]]]; exfalso; [congruence|lia|lia|exact (Hnp Hpow)].
  - intros _ _ _. exact Hput.
Qed.

Lemma Allocator_Put_validation_witness :
  alloc_inv NewAllocator /\
  (exists e, Allocator_Put NewAllocator (Slice (Some 0%nat) 0 3 3)
             = Ok (NewAllocator, Some e)) /\
  (exists (i : nat) (p : Pool),
     Z.of_nat i = 16 /\ buffers NewAllocator !! i = Some p /\
     Allocator_Put NewAllocator (Slice (Some 0%nat) 0 10 65536) =
       Ok (mkAllocator
             (<[i := mkPool (Slice (Some 0%nat) 0 65536 65536 :: items p)
                            (New_size p)]> (buffers NewAllocator)),
           None)).
Proof.
  split; [exact NewAllocator_inv|]. split.
  - apply (Allocator_Put_validation NewAllocator (Slice (Some 0%nat) 0 3 3)
             NewAllocator_inv).
    right. right. right. simpl. intros Hp.
    apply land_pred_pow2 in Hp; [discriminate Hp | lia].
  - destruct (proj2 (Allocator_Put_validation NewAllocator
                       (Slice (Some 0%nat) 0 10 65536) NewAllocator_inv))
      as (i & p & Hi & _ & Hb & Hput).
    + reflexivity.
    + simpl. lia.
    + exists 16. split; [lia | reflexivity].
    + exists i, p. split; [exact Hi|]. split; [exact Hb | exact Hput].
Defined.

End AllocClaims.

(** ** Windows of arrays *)

Section Windows.

Implicit Types (l v : list byte) (i n : Z) (k : nat).

Lemma lookup_sub l i n k :
  sub l i n !! k =
  if decide (k < Z.to_nat n)%nat then l !! (Z.to_nat i + k)%nat else None.
Proof.
  unfold sub. case_decide.
  - rewrite lookup_take_lt by assumption. apply lookup_drop.
  - apply lookup_take_ge. lia.
Qed.

Lemma length_sub l i n :
  0 <= i -> 0 <= n -> i + n <= Z.of_nat (length l) ->
  length (sub l i n) = Z.to_nat n.
Proof.
  intros Hi Hn Hl. unfold sub. rewrite length_take, length_drop. lia.
Qed.

Lemma sub_0_all l n : n = Z.of_nat (length l) -> sub l 0 n = l.
Proof.
  intros ->. unfold sub. simpl. rewrite drop_0. apply take_ge. lia.
Qed.


Lemma sub_sub l i n j m :
  0 <= i -> 0 <= j -> 0 <= m -> j + m <= n ->
  sub (sub l i n) j m = sub l (i + j) m.
Proof.
  intros Hi Hj Hm Hjm. apply list_eq. intros k.
  rewrite !lookup_sub. case_decide; [|reflexivity].
  rewrite decide_True by lia. f_equal. lia.
Qed.

Lemma sub_app_split l i n m :
  0 <= i -> 0 <= n -> 0 <= m -> i + n <= Z.of_nat (length l) ->
  sub l i (n + m) = sub l i n ++ sub l (i + n) m.
Proof.
  intros Hi Hn Hm Hl. apply list_eq. intros k.
  destruct (decide (k < Z.to_nat n)%nat) as [Hk|Hk].
  - rewrite lookup_app_l by (rewrite length_sub by lia; lia).
    rewrite !lookup_sub, !decide_True by lia. reflexivity.
  - rewrite lookup_app_r by (rewrite length_sub by lia; lia).
    rewrite length_sub by lia. rewrite !lookup_sub.
    destruct (decide (k < Z.to_nat (n + m))%nat).
    + rewrite decide_True by lia. f_equal. lia.
    + rewrite decide_False by lia. reflexivity.
Qed.

Lemma length_splice l i v :
  0 <= i -> i + Z.of_nat (length v) <= Z.of_nat (length l) ->
  length (splice l i v) = length l.
Proof.
  intros Hi Hl. unfold splice.
  rewrite !length_app, length_take, length_drop. lia.
Qed.

Lemma lookup_splice l i v k :
  0 <= i -> i + Z.of_nat (length v) <= Z.of_nat (length l) ->
  splice l i v !! k =
  if decide (k < Z.to_nat i)%nat then l !! k
  else if decide (k < Z.to_nat i + length v)%nat then v !! (k - Z.to_nat i)%nat
       else l !! k.
Proof.
  intros Hi Hl. unfold splice.
  assert (Ht : length (take (Z.to_nat i) l) = Z.to_nat i)
    by (rewrite length_take; lia).
  case_decide.
  - rewrite lookup_app_l by lia. apply lookup_take_lt. assumption.
  - rewrite lookup_app_r by lia. rewrite Ht. case_decide.
    + rewrite lookup_app_l by lia. reflexivity.
    + rewrite lookup_app_r by lia. rewrite lookup_drop. f_equal. lia.
Qed.

(** The window just written holds what was written. *)
Lemma sub_splice_same l i v n :
  0 <= i -> i + Z.of_nat (length v) <= Z.of_nat (length l) ->
  n = Z.of_nat (length v) ->
  sub (splice l i v) i n = v.
Proof.
  intros Hi Hl ->. apply list_eq. intros k.
  rewrite lookup_sub. case_decide.
  - rewrite lookup_splice by assumption.
    rewrite decide_False by lia. rewrite decide_True by lia. f_equal. lia.
  - symmetry. apply lookup_ge_None. lia.
Qed.

(** A window that ends before the written one, or starts after it, is
    unchanged. *)
Lemma sub_splice_disjoint l i v j n :
  0 <= i -> i + Z.of_nat (length v) <= Z.of_nat (length l) ->
  0 <= j -> 0 <= n ->
  j + n <= i \/ i + Z.of_nat (length v) <= j ->
  sub (splice l i v) j n = sub l j n.
Proof.
  intros Hi Hl Hj Hn Hd. apply list_eq. intros k.
  rewrite !lookup_sub. case_decide; [|reflexivity].
  rewrite lookup_splice by assumption.
  destruct Hd as [Hd|Hd].
  - rewrite decide_True by lia. reflexivity.
  - rewrite decide_False by lia. rewrite decide_False by lia. reflexivity.
Qed.

Lemma splice_zeros v n :
  Z.of_nat (length v) <= n ->
  splice (replicate (Z.to_nat n) x00) 0 v =
  v ++ replicate (Z.to_nat (n - Z.of_nat (length v))) x00.
Proof.
  intros Hn. unfold splice. simpl. f_equal.
  rewrite drop_replicate. f_equal. lia.
Qed.

End Windows.

(** ** Slices in the heap *)

Section HeapFacts.

Implicit Types (h t : heap) (s : slice) (v : list byte).

Lemma length_store h s v : length (store h s v) = length h.
Proof. unfold store. destruct (arr s); [apply length_insert | reflexivity]. Qed.

Lemma array_of_store h s v s' :
  slice_wf h s -> Z.of_nat (length v) <= cap s ->
  array_of (store h s v) s' =
  if decide (arr s' = arr s) then splice (array_of h s) (off s) v
  else array_of h s'.
Proof.
  intros (Hok & Hlen & Ha) Hv. unfold store, array_of in *.
  destruct (arr s) as [a|] eqn:Es.
  - destruct (arr s') as [a'|] eqn:Es'.
    + case_decide as Heq.
      * inversion Heq; subst a'.
        rewrite list_lookup_insert_eq by assumption. reflexivity.
      * rewrite list_lookup_insert_ne by congruence. reflexivity.
    + rewrite decide_False by discriminate. reflexivity.
  - destruct Hok as (Ho & Hl & _). simpl in Hlen.
    assert (v = []) by (destruct v; [reflexivity | simpl in Hv; lia]). subst v.
    destruct (arr s'); case_decide; try reflexivity; try discriminate.
    unfold splice. rewrite take_nil, drop_nil. reflexivity.
Qed.

Lemma length_array_of_store h s v s' :
  slice_wf h s -> Z.of_nat (length v) <= cap s ->
  length (array_of (store h s v) s') = length (array_of h s').
Proof.
  intros Hs Hv. rewrite array_of_store by assumption.
  case_decide as Heq; [|reflexivity].
  destruct Hs as ((Ho & Hl & _) & Hlen & _).
  rewrite length_splice by lia.
  unfold array_of. rewrite Heq. reflexivity.
Qed.

Lemma slice_wf_store h s v s' :
  slice_wf h s -> Z.of_nat (length v) <= cap s ->
  slice_wf h s' -> slice_wf (store h s v) s'.
Proof.
  intros Hs Hv (Hok & Hlen & Ha). split; [assumption|]. split.
  - rewrite length_array_of_store by assumption. assumption.
  - rewrite length_store. assumption.
Qed.

Lemma array_of_app h t s : slice_wf h s -> array_of (h ++ t) s = array_of h s.
Proof.
  intros (_ & _ & Ha). unfold array_of. destruct (arr s); [|reflexivity].
  rewrite lookup_app_l by assumption. reflexivity.
Qed.

Lemma bytes_of_app h t s : slice_wf h s -> bytes_of (h ++ t) s = bytes_of h s.
Proof. intros Hs. unfold bytes_of. rewrite array_of_app by assumption. reflexivity. Qed.

Lemma slice_wf_app h t s : slice_wf h s -> slice_wf (h ++ t) s.
Proof.
  intros Hs. pose proof Hs as (Hok & Hlen & Ha).
  split; [assumption|]. split.
  - rewrite array_of_app by assumption. assumption.
  - destruct (arr s); [|exact I]. rewrite length_app. lia.
Qed.

Lemma insert_snoc {A} (l : list A) (x y : A) :
  <[length l := x]> (l ++ [y]) = l ++ [x].
Proof.
  replace (length l) with (length l + 0)%nat by lia.
  rewrite insert_app_r. reflexivity.
Qed.

Lemma make_ok h n :
  0 <= n ->
  make h n = Ok (h ++ [replicate (Z.to_nat n) x00],
                 Slice (Some (length h)) 0 n n).
Proof. intros Hn. unfold make. destruct (n <? 0) eqn:E; [lia | reflexivity]. Qed.

Lemma maxAlloc_int : 65536 <= maxAlloc /\ maxAlloc <= int_max.
Proof. unfold maxAlloc, int_max. lia. Qed.

Lemma makeslice_ok h n : 0 <= n <= maxAlloc -> makeslice h n = make h n.
Proof.
  intros Hn. unfold makeslice.
  destruct ((n <? 0) || (maxAlloc <? n)) eqn:E; [lia | reflexivity].
Qed.

Lemma makeslice_over h n :
  maxAlloc < n -> makeslice h n = Panic "makeslice: len out of range".
Proof.
  intros Hn. unfold makeslice.
  destruct ((n <? 0) || (maxAlloc <? n)) eqn:E; [reflexivity | lia].
Qed.

Lemma makeslice_inv h n r :
  makeslice h n = Ok r -> 0 <= n <= maxAlloc /\ make h n = Ok r.
Proof.
  unfold makeslice.
  destruct ((n <? 0) || (maxAlloc <? n)) eqn:E; [discriminate|].
  intros H. split; [lia | exact H].
Qed.

Lemma array_of_fresh h (l : list byte) o n c :
  array_of (h ++ [l]) (Slice (Some (length h)) o n c) = l.
Proof.
  unfold array_of. simpl. rewrite lookup_app_r by lia.
  rewrite Nat.sub_diag. reflexivity.
Qed.

Lemma slice_wf_fresh h (l : list byte) n :
  0 <= n <= int_max -> n = Z.of_nat (length l) ->
  slice_wf (h ++ [l]) (Slice (Some (length h)) 0 n n).
Proof.
  intros Hn Hl. split; [|split].
  - unfold slice_ok. simpl. lia.
  - rewrite array_of_fresh. simpl. lia.
  - simpl. rewrite length_app. simpl. lia.
Qed.

Lemma length_bytes_of h s :
  slice_wf h s -> length (bytes_of h s) = Z.to_nat (len s).
Proof.
  intros ((Ho & Hl & _) & Hlen & _). unfold bytes_of.
  apply length_sub; lia.
Qed.

(** [reslice] within the capacity. *)
Lemma reslice_ok s lo hi :
  0 <= lo <= hi -> hi <= cap s ->
  reslice s lo hi = Ok (Slice (arr s) (off s + lo) (hi - lo) (cap s - lo)).
Proof.
  intros Hlo Hhi. unfold reslice.
  destruct ((0 <=? lo) && (lo <=? hi) && (hi <=? cap s)) eqn:E; [reflexivity|lia].
Qed.

Lemma reslice_inv s lo hi r :
  reslice s lo hi = Ok r ->
  0 <= lo <= hi /\ hi <= cap s /\
  r = Slice (arr s) (off s + lo) (hi - lo) (cap s - lo).
Proof.
  unfold reslice.
  destruct ((0 <=? lo) && (lo <=? hi) && (hi <=? cap s)) eqn:E; [|discriminate].
  intros [= <-]. repeat split; lia.
Qed.

End HeapFacts.

(** ** package buffer *)

Section BufferFacts.

Import alloc buffer.

Implicit Types (h : heap) (b : Buffer) (s : slice).

Lemma array_of_arr h s s' : arr s = arr s' -> array_of h s = array_of h s'.
Proof. unfold array_of. intros ->. reflexivity. Qed.

Lemma Len_eq b :
  slice_ok (data b) -> buf_inv b -> Len b = end_ b - start b.
Proof.
  intros (_ & ? & ?) [? ?]. unfold Len, int_sub. apply wrap_id.
  int_consts. lia.
Qed.

Lemma Bytes_ok b :
  slice_ok (data b) -> buf_inv b ->
  Bytes b = Ok (Slice (arr (data b)) (off (data b) + start b)
                      (end_ b - start b) (cap (data b) - start b)).
Proof. intros (_ & ? & ?) [? ?]. apply reslice_ok; lia. Qed.

Lemma readable_eq h b :
  slice_ok (data b) -> buf_inv b ->
  readable h b =
  sub (array_of h (data b)) (off (data b) + start b) (end_ b - start b).
Proof.
  intros Hok Hinv. unfold readable. rewrite Bytes_ok by assumption.
  reflexivity.
Qed.

Lemma length_readable h b :
  buf_wf h b -> length (readable h b) = Z.to_nat (end_ b - start b).
Proof.
  intros [(Hok & Hlen & _) Hinv]. rewrite readable_eq by assumption.
  destruct Hok as (? & ? & ?), Hinv as [? ?]. apply length_sub; lia.
Qed.

(** The capacity that [grow] asks for when it has to reallocate. *)
Lemma newCap_spec (L n c : Z) :
  0 <= L <= c -> c <= int_max -> 0 < n -> L + n <= int_max ->
  exists newCap,
    (let nc := int_add L n in
     if nc <? int_mul c 2
     then let nc := int_mul c 2 in if nc =? 0 then n else nc
     else nc) = newCap /\
    L + n <= newCap <= int_max /\
    (2 * c <= int_max -> newCap = Z.max (L + n) (2 * c)).
Proof.
  intros HL Hc Hn Hov. cbv zeta.
  assert (Hadd : int_add L n = L + n).
  { apply wrap_id. revert Hov. int_consts. lia. }
  rewrite Hadd.
  destruct (Z_le_gt_dec (2 * c) int_max) as [Hd|Hd].
  - assert (Hmul : int_mul c 2 = 2 * c).
    { unfold int_mul. rewrite Z.mul_comm. apply wrap_id.
      revert Hd. int_consts. lia. }
    rewrite Hmul. destruct (L + n <? 2 * c) eqn:E.
    + destruct (2 * c =? 0) eqn:E0; [lia|].
      exists (2 * c). split; [reflexivity|]. split; lia.
    + exists (L + n). split; [reflexivity|]. split; lia.
  - assert (Hmul : int_mul c 2 = 2 * c - 2 ^ 64).
    { unfold int_mul. rewrite Z.mul_comm. apply wrap_over.
      revert Hc Hd. int_consts. lia. }
    rewrite Hmul.
    assert (Hneg : 2 * c - 2 ^ 64 < 0) by (revert Hc; int_consts; lia).
    destruct (L + n <? 2 * c - 2 ^ 64) eqn:E; [lia|].
    exists (L + n). split; [reflexivity|]. split; lia.
Qed.

Lemma grow_alloc_spec h b n :
  buf_wf h b -> 0 < n -> end_ b - start b + n <= int_max ->
  exists newCap,
    end_ b - start b + n <= newCap <= int_max /\
    (2 * len (data b) <= int_max ->
     newCap = Z.max (end_ b - start b + n) (2 * len (data b))) /\
    grow_alloc h b n =
      Ok (h ++ [readable h b ++
                replicate (Z.to_nat (newCap - (end_ b - start b))) x00],
          mkBuffer (Slice (Some (length h)) 0 newCap newCap)
                   0 (end_ b - start b) false).
Proof.
  intros [Hwf Hinv] Hn Hov.
  pose proof Hwf as (Hok & Hlen & Ha).
  pose proof Hok as (Ho & Hl & Hc). pose proof Hinv as (Hs & He).
  pose proof (Len_eq b Hok Hinv) as HLen.
  pose proof (length_readable h b (conj Hwf Hinv)) as Hrl.
  destruct (newCap_spec (end_ b - start b) n (len (data b)))
    as (newCap & Hnc & Hrange & Hmax); try lia.
  exists newCap. split; [exact Hrange|]. split; [exact Hmax|].
  unfold grow_alloc. rewrite HLen. cbv zeta in Hnc |- *. rewrite Hnc.
  rewrite make_ok by lia. simpl.
  destruct (end_ b - start b >? 0) eqn:EL.
  - rewrite reslice_ok by lia. simpl.
    unfold store. simpl. rewrite array_of_fresh, insert_snoc.
    replace (Z.min newCap (end_ b - start b)) with (end_ b - start b) by lia.
    assert (Hsrc : bytes_of (h ++ [replicate (Z.to_nat newCap) x00])
                     (Slice (arr (data b)) (off (data b) + start b)
                            (end_ b - start b) (cap (data b) - start b))
                   = readable h b).
    { rewrite readable_eq by assumption. unfold bytes_of. simpl.
      rewrite (array_of_arr _ _ (data b)) by reflexivity.
      rewrite array_of_app by assumption. reflexivity. }
    rewrite Hsrc, sub_0_all by lia.
    rewrite splice_zeros by lia.
    repeat f_equal. lia.
  - assert (Hz : end_ b - start b = 0) by lia.
    assert (Hnil : readable h b = []).
    { destruct (readable h b); [reflexivity | simpl in Hrl; lia]. }
    rewrite Hnil, Hz, Z.sub_0_r. reflexivity.
Qed.


Lemma sub_app_l (v w : list byte) (n : Z) :
  n = Z.of_nat (length v) -> sub (v ++ w) 0 n = v.
Proof.
  intros ->. unfold sub. simpl. rewrite drop_0.
  apply take_app_length'. lia.
Qed.

(** The compaction step: [copy(b.data, b.data[b.start:b.end])] followed by
    [b.end = b.Len(); b.start = 0]. *)
Lemma compaction_step h b :
  buf_wf h b ->
  exists src,
    reslice (data b) (start b) (end_ b) = Ok src /\
    fst (copy h (data b) src) = compacted h b.
Proof.
  intros [Hwf Hinv].
  pose proof Hwf as (Hok & Hlen & Ha).
  pose proof Hok as (Ho & Hl & Hc). pose proof Hinv as (Hs & He).
  pose proof (length_readable h b (conj Hwf Hinv)) as Hrl.
  eexists. split; [apply reslice_ok; lia|].
  unfold copy, compacted. simpl.
  replace (Z.min (len (data b)) (end_ b - start b)) with (end_ b - start b)
    by lia.
  f_equal. rewrite sub_0_all.
  - unfold readable. rewrite Bytes_ok by assumption. reflexivity.
  - unfold bytes_of. simpl.
    rewrite (array_of_arr _ _ (data b)) by reflexivity.
    rewrite length_sub; lia.
Qed.

Lemma compacted_wf h b :
  buf_wf h b ->
  buf_wf (compacted h b) (mkBuffer (data b) 0 (end_ b - start b) (pooled b)).
Proof.
  intros Hb. pose proof Hb as [Hwf Hinv].
  pose proof (length_readable h b Hb) as Hrl.
  destruct Hwf as ((Ho & Hl & Hc) & Hlen & Ha), Hinv as (Hs & He).
  split.
  - apply slice_wf_store; [apply Hb | lia | apply Hb].
  - unfold buf_inv. simpl. lia.
Qed.

Lemma readable_compacted h b :
  buf_wf h b ->
  readable (compacted h b)
           (mkBuffer (data b) 0 (end_ b - start b) (pooled b))
  = readable h b.
Proof.
  intros Hb. pose proof Hb as [Hwf Hinv].
  pose proof (length_readable h b Hb) as Hrl.
  pose proof (compacted_wf h b Hb) as [Hwf' Hinv'].
  destruct Hwf as ((Ho & Hl & Hc) & Hlen & Ha), Hinv as (Hs & He).
  rewrite (readable_eq (compacted h b)) by (apply Hwf' || apply Hinv').
  simpl. unfold compacted.
  rewrite array_of_store by (apply Hb || lia).
  rewrite decide_True by reflexivity.
  rewrite Z.add_0_r, Z.sub_0_r.
  apply sub_splice_same; lia.
Qed.

Lemma compacted_wf_frame h b s :
  buf_wf h b -> slice_wf h s -> slice_wf (compacted h b) s.
Proof.
  intros Hb Hs. pose proof Hb as [Hwf Hinv].
  pose proof (length_readable h b Hb) as Hrl.
  destruct Hwf as ((Ho & Hl & Hc) & Hlen & Ha), Hinv as (Hst & He).
  apply slice_wf_store; [apply Hb | lia | exact Hs].
Qed.

(** Other slices are untouched by a compaction of a different array. *)
Lemma compacted_frame h b s :
  buf_wf h b -> slice_wf h s -> arr s <> arr (data b) ->
  bytes_of (compacted h b) s = bytes_of h s.
Proof.
  intros Hb Hs Hne. pose proof Hb as [Hwf Hinv].
  pose proof (length_readable h b Hb) as Hrl.
  destruct Hwf as ((Ho & Hl & Hc) & Hlen & Ha), Hinv as (Hst & He).
  unfold bytes_of, compacted.
  rewrite array_of_store by (apply Hb || lia).
  rewrite decide_False by assumption. reflexivity.
Qed.

Lemma length_compacted h b : length (compacted h b) = length h.
Proof. apply length_store. Qed.

(** The three ways through [grow] when more room is asked for and the
    sizes involved fit the [int] type. *)
Lemma grow_cases h b n :
  buf_wf h b -> 0 < n -> end_ b - start b + n <= int_max ->
  (n <= len (data b) - end_ b /\ grow h b n = Ok (h, b)) \/
  (len (data b) - end_ b < n /\
   0 < start b /\ 0 < end_ b - start b /\
   n <= len (data b) - (end_ b - start b) /\
   grow h b n =
     Ok (compacted h b, mkBuffer (data b) 0 (end_ b - start b) (pooled b))) \/
  (len (data b) - end_ b < n /\
   ~ (0 < start b /\ 0 < end_ b - start b /\
      n <= len (data b) - (end_ b - start b)) /\
   exists newCap,
     end_ b - start b + n <= newCap <= int_max /\
     (2 * len (data b) <= int_max ->
      newCap = Z.max (end_ b - start b + n) (2 * len (data b))) /\
     grow h b n =
       Ok ((if (0 <? start b) && (0 <? end_ b - start b)
            then compacted h b else h)
           ++ [readable h b ++
               replicate (Z.to_nat (newCap - (end_ b - start b))) x00],
           mkBuffer (Slice (Some (length h)) 0 newCap newCap)
                    0 (end_ b - start b) false)).
Proof.
  intros Hb Hn Hov. pose proof Hb as [Hwf Hinv].
  pose proof Hwf as (Hok & Hlen & Ha).
  pose proof Hok as (Ho & Hl & Hc). pose proof Hinv as (Hs & He).
  pose proof (Len_eq b Hok Hinv) as HLen.
  assert (Hfree : int_sub (len (data b)) (end_ b) = len (data b) - end_ b).
  { apply wrap_id. int_consts. lia. }
  unfold grow. destruct (n <=? 0) eqn:E0; [lia|]. clear E0.
  rewrite Hfree, HLen.
  destruct (len (data b) - end_ b >=? n) eqn:E1.
  { left. split; [lia | reflexivity]. }
  right.
  destruct ((start b >? 0) && (end_ b - start b >? 0)) eqn:E2.
  - destruct (compaction_step h b Hb) as (src & -> & Hcopy).
    cbn [mbind result_bind]. cbv zeta. rewrite Hcopy. cbn [data end_].
    assert (Hfree1 : int_sub (len (data b)) (end_ b - start b)
                     = len (data b) - (end_ b - start b)).
    { apply wrap_id. int_consts. lia. }
    rewrite Hfree1.
    destruct (len (data b) - (end_ b - start b) >=? n) eqn:E3.
    + left. repeat split; try lia. 
    + right. split; [lia|]. split; [lia|].
      destruct (grow_alloc_spec (compacted h b)
                  (mkBuffer (data b) 0 (end_ b - start b) (pooled b)) n
                  (compacted_wf h b Hb) Hn)
        as (newCap & Hrange & Hmax & Hga); [simpl; lia|].
      simpl in Hrange, Hmax, Hga. rewrite Z.sub_0_r in Hrange, Hmax, Hga.
      exists newCap. split; [exact Hrange|]. split; [exact Hmax|].
      rewrite Hga, readable_compacted, length_compacted by assumption.
      destruct ((0 <? start b) && (0 <? end_ b - start b)) eqn:E4; [|lia].
      reflexivity.
  - right. split; [lia|]. split; [lia|].
    destruct (grow_alloc_spec h b n Hb Hn Hov) as (newCap & Hrange & Hmax & Hga).
    exists newCap. split; [exact Hrange|]. split; [exact Hmax|].
    rewrite Hga.
    destruct ((0 <? start b) && (0 <? end_ b - start b)) eqn:E4; [lia|].
    reflexivity.
Qed.

(** What the callers of [grow] rely on. *)
Lemma grow_post h b n :
  buf_wf h b -> 0 < n -> end_ b - start b + n <= int_max ->
  exists h' b',
    grow h b n = Ok (h', b') /\
    buf_wf h' b' /\
    readable h' b' = readable h b /\
    n <= len (data b') - end_ b' /\
    end_ b' - start b' = end_ b - start b /\
    (forall s, slice_wf h s -> slice_wf h' s) /\
    (forall s, slice_wf h s ->
       arr s <> arr (data b) \/ start b = 0 \/ end_ b = start b ->
       bytes_of h' s = bytes_of h s).
Proof.
  intros Hb Hn Hov. pose proof Hb as [Hwf Hinv].
  pose proof (length_readable h b Hb) as Hrl.
  destruct (grow_cases h b n Hb Hn Hov)
    as [(Hfree & ->) | [(Hfree & Hst & HL & Hfit & ->)
                       | (Hfree & Hno & newCap & Hrange & Hmax & ->)]].
  - exists h, b. split; [reflexivity|]. split; [exact Hb|].
    split; [reflexivity|]. split; [lia|]. split; [reflexivity|].
    split; [intros s Hs; exact Hs | reflexivity].
  - exists (compacted h b), (mkBuffer (data b) 0 (end_ b - start b) (pooled b)).
    split; [reflexivity|]. split; [apply compacted_wf, Hb|].
    split; [apply readable_compacted, Hb|]. simpl.
    split; [lia|]. split; [lia|]. split.
    + intros s Hs. apply compacted_wf_frame; assumption.
    + intros s Hs [Hne|[?|?]]; [|lia|lia].
      apply compacted_frame; assumption.
  - set (hc := if (0 <? start b) && (0 <? end_ b - start b)
               then compacted h b else h).
    assert (Hlc : length hc = length h).
    { subst hc. destruct (_ && _); [apply length_compacted | reflexivity]. }
    eexists _, _. split; [reflexivity|].
    destruct Hwf as ((Ho & Hl & Hc) & Hlen & Ha), Hinv as (Hs & He).
    assert (Hcw : forall s, slice_wf h s -> slice_wf hc s).
    { intros s Hs'. subst hc. destruct (_ && _); [|exact Hs'].
      apply compacted_wf_frame; assumption. }
    split; [|split; [|split; [|split; [|split]]]].
    + split.
      * rewrite <- Hlc. apply slice_wf_fresh; [lia|].
        rewrite length_app, length_replicate. lia.
      * unfold buf_inv. simpl. lia.
    + rewrite readable_eq; simpl.
      * rewrite <- Hlc, array_of_fresh, Z.sub_0_r. apply sub_app_l. lia.
      * unfold slice_ok. simpl. lia.
      * unfold buf_inv. simpl. lia.
    + simpl. lia.
    + simpl. lia.
    + intros s Hs'. apply slice_wf_app, Hcw, Hs'.
    + intros s Hs' Hd.
      rewrite bytes_of_app by apply Hcw, Hs'.
      subst hc. destruct ((0 <? start b) && (0 <? end_ b - start b)) eqn:E;
        [|reflexivity].
      apply compacted_frame; [exact Hb | exact Hs' |].
      destruct Hd as [?|[?|?]]; [assumption|lia|lia].
Qed.


(** Storing [v] right after the readable region and advancing [end]. *)
Lemma append_at_end h b v dlen dcap :
  buf_wf h b ->
  Z.of_nat (length v) <= len (data b) - end_ b ->
  Z.of_nat (length v) <= dcap -> 0 <= dlen <= dcap ->
  dcap <= cap (data b) - end_ b ->
  let h' := store h (Slice (arr (data b)) (off (data b) + end_ b) dlen dcap) v in
  let b' := mkBuffer (data b) (start b)
                     (end_ b + Z.of_nat (length v)) (pooled b) in
  buf_wf h' b' /\ readable h' b' = readable h b ++ v /\
  forall s, slice_wf h s -> slice_wf h' s.
Proof.
  intros Hb Hv Hvc Hd Hdc h' b'. pose proof Hb as [Hwf Hinv].
  pose proof Hwf as (Hok & Hlen & Ha).
  pose proof Hok as (Ho & Hl & Hc). pose proof Hinv as (Hs & He).
  assert (Hdst : slice_wf h (Slice (arr (data b)) (off (data b) + end_ b)
                                   dlen dcap)).
  { split; [|split].
    - unfold slice_ok. simpl. lia.
    - simpl. rewrite (array_of_arr _ _ (data b)) by reflexivity. lia.
    - exact Ha. }
  assert (Hwf' : slice_wf h' (data b)).
  { apply slice_wf_store; assumption. }
  assert (Hinv' : buf_inv b') by (unfold buf_inv, b'; simpl; lia).
  split; [split; assumption|]. split.
  - rewrite (readable_eq h' b') by (exact Hok || exact Hinv').
    rewrite (readable_eq h b) by assumption.
    unfold b', h'. simpl.
    rewrite array_of_store by assumption. simpl.
    rewrite decide_True by reflexivity.
    rewrite (array_of_arr _ _ (data b)) by reflexivity.
    replace (end_ b + Z.of_nat (length v) - start b)
      with ((end_ b - start b) + Z.of_nat (length v)) by lia.
    rewrite sub_app_split; try lia.
    2:{ rewrite length_splice by lia. lia. }
    f_equal.
    + apply sub_splice_disjoint; lia.
    + replace (off (data b) + start b + (end_ b - start b))
        with (off (data b) + end_ b) by lia.
      apply sub_splice_same; lia.
  - intros s Hs'. apply slice_wf_store; assumption.
Qed.




Lemma consumed_all b : consumed b (end_ b) = mkBuffer (data b) 0 0 (pooled b).
Proof. unfold consumed. rewrite Z.eqb_refl. reflexivity. Qed.

Lemma consumed_part b st :
  st <> end_ b -> consumed b st = mkBuffer (data b) st (end_ b) (pooled b).
Proof.
  intros Hne. unfold consumed.
  destruct (st =? end_ b) eqn:E; [lia | reflexivity].
Qed.

(** After [k] of the readable bytes are consumed the rest is readable. *)
Lemma consumed_wf h b k :
  buf_wf h b -> 0 <= k <= end_ b - start b ->
  buf_wf h (consumed b (start b + k)) /\
  readable h (consumed b (start b + k)) =
    drop (Z.to_nat k) (readable h b).
Proof.
  intros Hb Hk. pose proof Hb as [Hwf Hinv].
  pose proof (length_readable h b Hb) as Hrl.
  pose proof Hwf as (Hok & Hlen & Ha).
  pose proof Hok as (Ho & Hl & Hc). pose proof Hinv as (Hs & He).
  destruct (Z.eq_dec (start b + k) (end_ b)) as [Heq|Hne].
  - rewrite Heq, consumed_all.
    assert (Hinv' : buf_inv (mkBuffer (data b) 0 0 (pooled b)))
      by (unfold buf_inv; simpl; lia).
    split; [split; assumption|].
    rewrite readable_eq by assumption. simpl.
    rewrite drop_ge by lia. reflexivity.
  - rewrite consumed_part by assumption.
    assert (Hinv' : buf_inv (mkBuffer (data b) (start b + k) (end_ b)
                                      (pooled b)))
      by (unfold buf_inv; simpl; lia).
    split; [split; assumption|].
    rewrite !readable_eq by assumption. simpl.
    apply list_eq. intros j.
    rewrite lookup_drop, !lookup_sub.
    destruct (decide (j < Z.to_nat (end_ b - (start b + k)))%nat).
    + rewrite decide_True by lia. f_equal. lia.
    + rewrite decide_False by lia. reflexivity.
Qed.

Lemma Read_spec h b d :
  buf_wf h b -> slice_wf h d -> 0 < end_ b - start b ->
  exists h',
    Read h b d =
      Ok (h', consumed b (start b + Z.min (len d) (end_ b - start b)),
          Z.min (len d) (end_ b - start b), None) /\
    sub (bytes_of h' d) 0 (Z.min (len d) (end_ b - start b)) =
      sub (readable h b) 0 (Z.min (len d) (end_ b - start b)) /\
    (forall s, slice_wf h s -> slice_wf h' s) /\
    h' = store h d (sub (readable h b) 0 (Z.min (len d) (end_ b - start b))).
Proof.
  intros Hb Hd HL. pose proof Hb as [Hwf Hinv].
  pose proof (length_readable h b Hb) as Hrl.
  pose proof Hwf as (Hok & Hlen & Ha).
  pose proof Hok as (Ho & Hl & Hc). pose proof Hinv as (Hs & He).
  pose proof Hd as ((Hdo & Hdl & Hdc) & Hdlen & Hda).
  unfold Read, IsEmpty. rewrite Len_eq by assumption.
  destruct (end_ b - start b =? 0) eqn:E; [lia|]. clear E.
  rewrite reslice_ok by lia. cbn [mbind result_bind].
  unfold copy. cbn [len].
  set (n := Z.min (len d) (end_ b - start b)).
  assert (Hsrc : bytes_of h (Slice (arr (data b)) (off (data b) + start b)
                              (end_ b - start b) (cap (data b) - start b))
                 = readable h b).
  { rewrite readable_eq by assumption. reflexivity. }
  rewrite Hsrc.
  assert (Hadd : int_add (start b) n = start b + n).
  { apply wrap_id. subst n. int_consts. lia. }
  rewrite Hadd.
  assert (Hvl : Z.of_nat (length (sub (readable h b) 0 n)) = n).
  { rewrite length_sub by lia. lia. }
  eexists. split; [reflexivity|]. split.
  - unfold bytes_of. rewrite array_of_store by (assumption || lia).
    rewrite decide_True by reflexivity.
    rewrite sub_sub by lia. rewrite Z.add_0_r.
    apply sub_splice_same; lia.
  - split; [|reflexivity].
    intros s Hs'. apply slice_wf_store; [assumption | lia | assumption].
Qed.

Lemma ReadByte_spec h b c rest :
  buf_wf h b -> readable h b = c :: rest ->
  exists b',
    ReadByte h b = Ok (b', c, None) /\
    buf_wf h b' /\ readable h b' = rest.
Proof.
  intros Hb Hr. pose proof Hb as [Hwf Hinv].
  pose proof (length_readable h b Hb) as Hrl.
  rewrite Hr in Hrl. simpl in Hrl.
  pose proof Hwf as (Hok & Hlen & Ha).
  pose proof Hok as (Ho & Hl & Hc). pose proof Hinv as (Hs & He).
  unfold ReadByte, IsEmpty. rewrite Len_eq by assumption.
  destruct (end_ b - start b =? 0) eqn:E; [lia|]. clear E.
  unfold index.
  destruct ((0 <=? start b) && (start b <? len (data b))) eqn:E; [|lia].
  clear E. cbn [mbind result_bind].
  assert (Hc0 : array_of h (data b) !! Z.to_nat (off (data b) + start b)
                = Some c).
  { pose proof (f_equal (fun l => l !! 0%nat) Hr) as H0. simpl in H0.
    rewrite readable_eq, lookup_sub in H0 by assumption.
    rewrite decide_True in H0 by lia.
    rewrite Nat.add_0_r in H0. exact H0. }
  rewrite Hc0. simpl.
  assert (Hadd : int_add (start b) 1 = start b + 1).
  { apply wrap_id. int_consts. lia. }
  rewrite Hadd.
  destruct (consumed_wf h b 1 Hb ltac:(lia)) as [Hb' Hr'].
  eexists. split; [reflexivity|]. split; [exact Hb'|].
  rewrite Hr', Hr. reflexivity.
Qed.






(** *** Frames: what an operation leaves alone *)

Lemma bytes_of_store_other h s v s' :
  slice_wf h s -> Z.of_nat (length v) <= cap s -> arr s' <> arr s ->
  bytes_of (store h s v) s' = bytes_of h s'.
Proof.
  intros Hs Hv Hne. unfold bytes_of.
  rewrite array_of_store by assumption.
  rewrite decide_False by assumption. reflexivity.
Qed.

Lemma readable_store_other h s v b :
  slice_wf h s -> Z.of_nat (length v) <= cap s ->
  arr (data b) <> arr s ->
  readable (store h s v) b = readable h b.
Proof.
  intros Hs Hv Hne. unfold readable.
  destruct (Bytes b) as [r|] eqn:E; [|reflexivity].
  apply reslice_inv in E as (_ & _ & ->).
  apply bytes_of_store_other; assumption.
Qed.

Lemma readable_app h t b : buf_wf h b -> readable (h ++ t) b = readable h b.
Proof.
  intros [Hwf Hinv]. pose proof Hwf as (Hok & _).
  rewrite !readable_eq by assumption.
  rewrite array_of_app by assumption. reflexivity.
Qed.

Lemma buf_wf_app h t b : buf_wf h b -> buf_wf (h ++ t) b.
Proof. intros [Hwf Hinv]. split; [apply slice_wf_app, Hwf | exact Hinv]. Qed.

Lemma wf_not_fresh h s : slice_wf h s -> arr s <> Some (length h).
Proof.
  intros (_ & _ & Ha) Heq. rewrite Heq in Ha. lia.
Qed.

Lemma store_fresh h (x v : list byte) s :
  arr s = Some (length h) ->
  store (h ++ [x]) s v = h ++ [splice x (off s) v].
Proof.
  intros Ha. unfold store, array_of. rewrite Ha.
  rewrite lookup_app_r by lia. rewrite Nat.sub_diag. simpl.
  apply insert_snoc.
Qed.

(** Where the storage of the buffer is after [grow]: in place (the same
    slice, same ownership, nothing allocated) or in one fresh array. *)
Lemma grow_storage h b n h' b' :
  buf_wf h b -> 0 < n -> end_ b - start b + n <= int_max ->
  grow h b n = Ok (h', b') ->
  (n <= len (data b) - end_ b -> h' = h /\ b' = b) /\
  ((data b' = data b /\ pooled b' = pooled b /\ length h' = length h) \/
   (arr (data b') = Some (length h) /\ pooled b' = false)) /\
  (len (data b) - end_ b < n -> start b = 0 \/ end_ b = start b ->
   arr (data b') = Some (length h) /\ pooled b' = false /\
   exists x, h' = h ++ [x]) /\
  (len (data b) - end_ b < n -> 0 < start b -> 0 < end_ b - start b ->
   n <= len (data b) - (end_ b - start b) ->
   h' = compacted h b /\
   b' = mkBuffer (data b) 0 (end_ b - start b) (pooled b)).
Proof.
  intros Hb Hn Hov Hg.
  destruct (grow_cases h b n Hb Hn Hov)
    as [(Hfree & Hg') | [(Hfree & Hst & HL & Hfit & Hg')
                        | (Hfree & Hno & newCap & Hrange & Hmax & Hg')]];
    rewrite Hg in Hg'; injection Hg' as -> ->.
  - split; [intros _; split; reflexivity|].
    split; [left; repeat split|]. split; intros; lia.
  - split; [intros; lia|].
    split; [left; cbn [data pooled]; repeat split; apply length_compacted|].
    split; [intros _ [?|?]; lia|].
    intros _ _ _ _. split; reflexivity.
  - split; [intros; lia|]. split; [right; split; reflexivity|].
    split; [|intros; exfalso; apply Hno; lia].
    intros _ Hnc. cbn [data pooled arr].
    split; [reflexivity|]. split; [reflexivity|].
    destruct ((0 <? start b) && (0 <? end_ b - start b)) eqn:E; [lia|].
    eexists. reflexivity.
Qed.

(** Everything [Write] does, for a non-empty [p]. *)
Lemma Write_full h b p :
  buf_wf h b -> slice_wf h p -> 0 < len p ->
  end_ b - start b + len p <= int_max ->
  arr p <> arr (data b) \/ start b = 0 \/ end_ b = start b ->
  exists h' b',
    Write h b p = Ok (h', b', len p, None) /\
    buf_wf h' b' /\ readable h' b' = readable h b ++ bytes_of h p /\
    end_ b' - start b' = end_ b - start b + len p /\
    (forall s, slice_wf h s -> slice_wf h' s) /\
    (forall s, slice_wf h s -> arr s <> arr (data b) ->
       bytes_of h' s = bytes_of h s) /\
    (len p <= len (data b) - end_ b ->
     b' = mkBuffer (data b) (start b) (end_ b + len p) (pooled b) /\
     length h' = length h) /\
    (len (data b) - end_ b < len p -> start b = 0 \/ end_ b = start b ->
     arr (data b') = Some (length h) /\ pooled b' = false /\
     forall s, slice_wf h s -> bytes_of h' s = bytes_of h s) /\
    (len (data b) - end_ b < len p -> 0 < start b ->
     0 < end_ b - start b ->
     len p <= len (data b) - (end_ b - start b) ->
     b' = mkBuffer (data b) 0 (end_ b - start b + len p) (pooled b) /\
     length h' = length h).
Proof.
  intros Hb Hp Hpos Hov Hd. unfold Write.
  pose proof Hp as ((Hpo & Hpl & Hpc) & _).
  destruct (len p =? 0) eqn:E0; [lia|]. clear E0.
  destruct (grow_post h b (len p) Hb Hpos Hov)
    as (h1 & b1 & Hg & Hb1 & Hr1 & Hfree & HL & Hwfr & Hframe).
  destruct (grow_storage h b (len p) h1 b1 Hb Hpos Hov Hg)
    as (Hfit & Hwhere & Hnew & Hcomp).
  rewrite Hg.
  pose proof (Hwfr p Hp) as Hp1. pose proof (Hframe p Hp Hd) as Hbytes.
  pose proof Hb1 as [Hwf1 Hinv1].
  pose proof Hwf1 as ((Ho & Hl & Hc) & Hlen & Ha).
  pose proof Hinv1 as (Hs & He).
  cbn [mbind result_bind]. rewrite reslice_ok by lia.
  cbn [mbind result_bind]. unfold copy. cbn [len].
  replace (Z.min (len (data b1) - end_ b1) (len p)) with (len p) by lia.
  rewrite Hbytes, sub_0_all by (rewrite length_bytes_of by assumption; lia).
  assert (Hadd : int_add (end_ b1) (len p) = end_ b1 + len p).
  { apply wrap_id. int_consts. lia. }
  rewrite Hadd.
  assert (Hvl : Z.of_nat (length (bytes_of h p)) = len p).
  { rewrite length_bytes_of by assumption. lia. }
  set (dst := Slice (arr (data b1)) (off (data b1) + end_ b1)
                    (len (data b1) - end_ b1) (cap (data b1) - end_ b1)).
  assert (Hdst : slice_wf h1 dst).
  { split; [|split].
    - unfold slice_ok, dst. simpl. lia.
    - unfold dst. simpl. rewrite (array_of_arr _ _ (data b1)) by reflexivity.
      lia.
    - exact Ha. }
  destruct (append_at_end h1 b1 (bytes_of h p)
              (len (data b1) - end_ b1) (cap (data b1) - end_ b1))
    as (Hb2 & Hr2 & Hfr2); try assumption; try lia.
  rewrite Hvl in Hb2, Hr2. fold dst in Hb2, Hr2, Hfr2.
  eexists _, _. split; [reflexivity|].
  split; [exact Hb2|]. split; [rewrite Hr2, Hr1; reflexivity|].
  cbn [start end_ data pooled].
  split; [lia|].
  split; [intros s Hs'; apply Hfr2, Hwfr, Hs'|].
  split; [|split; [|split]].
  - intros s Hs' Hne.
    rewrite bytes_of_store_other; [| exact Hdst | cbn [cap dst]; lia |].
    + apply Hframe; [exact Hs' | left; exact Hne].
    + unfold dst. cbn [arr].
      destruct Hwhere as [(-> & _) | (-> & _)];
        [exact Hne | apply wf_not_fresh, Hs'].
  - intros Hroom. destruct (Hfit Hroom) as [-> ->].
    split; [reflexivity | apply length_store].
  - intros Hless Hnc. destruct (Hnew Hless Hnc) as (Harr & Hpool & x & ->).
    split; [exact Harr|]. split; [exact Hpool|].
    intros s Hs'. rewrite store_fresh by exact Harr.
    apply bytes_of_app, Hs'.
  - intros Hless Hst HLen Hfits.
    destruct (Hcomp Hless Hst HLen Hfits) as [-> ->].
    split; [reflexivity|].
    rewrite length_store. apply length_compacted.
Qed.

Lemma Reset_wf h b : buf_wf h b -> buf_wf h (Reset b).
Proof.
  intros [Hwf ([? ?] & ?)]. split; [exact Hwf|].
  destruct Hwf as ((? & ? & ?) & _). unfold buf_inv. simpl. lia.
Qed.


(** [grow] for any [n >= 0]: it returns, keeps the readable content and
    leaves room for [n] bytes. *)
Lemma grow_post0 h b n :
  buf_wf h b -> 0 <= n -> end_ b - start b + n <= int_max ->
  exists h' b',
    grow h b n = Ok (h', b') /\
    buf_wf h' b' /\ readable h' b' = readable h b /\
    n <= len (data b') - end_ b' /\
    end_ b' - start b' = end_ b - start b /\
    (forall s, slice_wf h s -> slice_wf h' s).
Proof.
  intros Hb Hn Hov. destruct (Z.eq_dec n 0) as [->|Hnz].
  - exists h, b. pose proof Hb as [_ [? ?]].
    split; [reflexivity|]. split; [exact Hb|]. split; [reflexivity|].
    split; [lia|]. split; [reflexivity | intros s Hs; exact Hs].
  - destruct (grow_post h b n Hb ltac:(lia) Hov)
      as (h' & b' & Hg & Hb' & Hr & Hfree & HL & Hwfr & _).
    exists h', b'. repeat (split; [assumption|]). exact Hwfr.
Qed.

Lemma ReadBytes_ok h b n :
  buf_wf h b -> 0 <= n <= end_ b - start b ->
  ReadBytes h b n =
    Ok (h ++ [take (Z.to_nat n) (readable h b)],
        consumed b (start b + n), Slice (Some (length h)) 0 n n, None).
Proof.
  intros Hb Hn. pose proof Hb as [Hwf Hinv].
  pose proof (length_readable h b Hb) as Hrl.
  pose proof Hwf as (Hok & Hlen & Ha).
  pose proof Hok as (Ho & Hl & Hc). pose proof Hinv as (Hs & He).
  unfold ReadBytes. rewrite (Len_eq b Hok Hinv).
  destruct (n <? 0) eqn:E0; [lia|]. clear E0.
  destruct (end_ b - start b <? n) eqn:E; [lia|]. clear E.
  rewrite make_ok by lia. cbn [mbind result_bind].
  assert (Hadd : int_add (start b) n = start b + n).
  { apply wrap_id. int_consts. lia. }
  rewrite Hadd, reslice_ok by lia. cbn [mbind result_bind].
  unfold copy. cbn [len fst].
  replace (start b + n - start b) with n by lia.
  rewrite Z.min_id.
  assert (Hsrc : sub (bytes_of (h ++ [replicate (Z.to_nat n) x00])
                        (Slice (arr (data b)) (off (data b) + start b)
                               n (cap (data b) - start b))) 0 n
                 = take (Z.to_nat n) (readable h b)).
  { unfold bytes_of. cbn [off len].
    rewrite (array_of_arr _ _ (data b)) by reflexivity.
    rewrite array_of_app by assumption.
    rewrite readable_eq by assumption.
    rewrite sub_sub by lia. rewrite Z.add_0_r.
    unfold sub. rewrite take_take. f_equal. lia. }
  rewrite Hsrc.
  rewrite store_fresh by reflexivity. cbn [off].
  rewrite splice_zeros by (rewrite length_take; lia).
  replace (Z.to_nat (n - Z.of_nat (length (take (Z.to_nat n)
                                             (readable h b)))))
    with 0%nat by (rewrite length_take; lia).
  simpl. rewrite app_nil_r. reflexivity.
Qed.

End BufferFacts.

(** ** The constructors build well-formed buffers *)

Section Constructors.

Import alloc buffer.

Implicit Types (h : heap) (b : Buffer) (s : slice) (a : Allocator).

Lemma NewAllocator_wf h : alloc_wf h NewAllocator.
Proof.
  split; [exact NewAllocator_inv|].
  intros i p Hp.
  assert (Hi : (i < 17)%nat) by (apply lookup_lt_Some in Hp; exact Hp).
  do 17 (destruct i as [|i]; [inversion Hp; subst; constructor|]).
  lia.
Qed.

Lemma alloc_wf_app h t a : alloc_wf h a -> alloc_wf (h ++ t) a.
Proof.
  intros [Ha Hw]. split; [exact Ha|].
  intros i p Hp. eapply Forall_impl; [exact (Hw i p Hp)|].
  intros s Hs. apply slice_wf_app, Hs.
Qed.

Lemma alloc_wf_insert h a (i : nat) (p : Pool) :
  alloc_wf h a -> alloc_inv (mkAllocator (<[i := p]> (buffers a))) ->
  Forall (slice_wf h) (items p) ->
  alloc_wf h (mkAllocator (<[i := p]> (buffers a))).
Proof.
  intros [Ha Hw] Ha' Hp. split; [exact Ha'|]. simpl.
  intros j q Hq. destruct (decide (i = j)) as [->|Hne].
  - apply list_lookup_insert_Some in Hq as [(_ & -> & _)|(? & _)]; [|done].
    exact Hp.
  - rewrite list_lookup_insert_ne in Hq by assumption. exact (Hw j q Hq).
Qed.

(** A slice that [Get] hands out is a slice of the heap, and the heap
    only grows. *)
Lemma Allocator_Get_wf (pick : nat) a h (size : Z) :
  alloc_wf h a -> 1 <= size <= 65536 ->
  exists a' h' r,
    Allocator_Get pick a h size = Ok (a', h', r) /\
    is_nil r = false /\ len r = size /\
    slice_wf h' r /\ alloc_wf h' a' /\
    (forall s, slice_wf h s ->
       slice_wf h' s /\ bytes_of h' s = bytes_of h s).
Proof.
  intros Haw Hs. pose proof Haw as [Ha Hw].
  destruct (Allocator_Get_in_range pick a h size Ha Hs)
    as (a' & h' & r & Hget & Hnil & Hlen & (_ & Hle & _) & Ha' &
        i & p & p' & buf & Hp & -> & -> & Hcap & Hi & Hcase).
  exists (mkAllocator (<[i := p']> (buffers a))), h',
         (Slice (arr buf) (off buf) size (cap buf)).
  split; [exact Hget|]. split; [exact Hnil|]. split; [reflexivity|].
  cbn [cap] in Hle.
  assert (Hc16 : cap buf <= 65536).
  { rewrite Hcap. change 65536 with (2 ^ 16).
    apply Z.pow_le_mono_r; lia. }
  assert (Hcut : slice_wf h' buf ->
                 slice_wf h' (Slice (arr buf) (off buf) size (cap buf))).
  { intros ((Ho & Hl & Hc) & Hlen' & Harr). split; [|split].
    - unfold slice_ok. simpl. lia.
    - simpl. rewrite (array_of_arr _ _ buf) by reflexivity. lia.
    - exact Harr. }
  destruct Hcase as [(-> & Hpick & ->) | (-> & -> & -> & _)].
  - pose proof (Hw i p Hp) as Hwp.
    split; [apply Hcut; rewrite Forall_lookup in Hwp; exact (Hwp _ _ Hpick)|].
    split; [|intros s Hs'; split; [exact Hs' | reflexivity]].
    apply alloc_wf_insert; [exact Haw | exact Ha' |].
    cbn [items]. apply Forall_delete, Hwp.
  - split; [|split; [|intros s Hs'; split;
                       [apply slice_wf_app, Hs' | apply bytes_of_app, Hs']]].
    + apply Hcut, slice_wf_fresh.
      * cbn [cap] in Hc16. unfold int_max. lia.
      * rewrite length_replicate. cbn [cap] in Hle. lia.
    + apply alloc_wf_insert;
        [apply alloc_wf_app, Haw | exact Ha' |].
      eapply Forall_impl; [exact (Hw i p Hp)|].
      intros s Hs'. apply slice_wf_app, Hs'.
Qed.

Lemma nil_slice_wf h : slice_wf h nil_slice.
Proof. unfold slice_wf, slice_ok, int_max. simpl. lia. Qed.

(** [NewSize] builds an empty well-formed buffer, whatever the size. *)
Lemma NewSize_wf (pick : nat) a h (size : Z) :
  alloc_wf h a -> size <= maxAlloc ->
  exists a' h' b,
    NewSize pick a h size = Ok (a', h', b) /\
    buf_wf h' b /\ Len b = 0 /\ Cap b = Z.max 0 size /\
    alloc_wf h' a' /\
    (forall s, slice_wf h s ->
       slice_wf h' s /\ bytes_of h' s = bytes_of h s) /\
    start b = 0 /\ end_ b = 0 /\
    (pooled b = true <-> 1 <= size <= 65536).
Proof.
  intros Haw Hmax. pose proof Haw as [Ha Hw].
  assert (Hinv0 : forall d, 0 <= len d ->
                  buf_inv (mkBuffer d 0 0 true) /\
                  buf_inv (mkBuffer d 0 0 false)).
  { intros d Hd. unfold buf_inv. simpl. lia. }
  destruct (Z_le_gt_dec size 0) as [H0|H0];
    [|destruct (Z_le_gt_dec size 65536) as [H1|H1]].
  - exists a, h, (mkBuffer nil_slice 0 0 false). split.
    + unfold NewSize. destruct (size <? 0) eqn:E; [reflexivity|].
      destruct (size =? 0) eqn:E0; [reflexivity | lia].
    + split; [split; [apply nil_slice_wf | apply Hinv0; simpl; lia]|].
      split; [reflexivity|]. split; [unfold Cap; simpl; lia|].
      split; [exact Haw|].
      split; [intros s Hs; split; [exact Hs | reflexivity]|].
      split; [reflexivity|]. split; [reflexivity|].
      simpl. split; [discriminate | lia].
  - destruct (Allocator_Get_wf pick a h size Haw ltac:(lia))
      as (a' & h' & r & Hget & Hnil & Hlen & Hr & Haw' & Hfr).
    pose proof Hr as ((Ho & Hl & Hc) & Harr & Hal).
    exists a', h', (mkBuffer (Slice (arr r) (off r) size (cap r)) 0 0 true).
    split.
    + unfold NewSize, Get.
      destruct (size <? 0) eqn:E; [lia|]. clear E.
      destruct (size =? 0) eqn:E; [lia|]. clear E.
      rewrite Hget. cbn [mbind result_bind]. rewrite Hnil. cbn [negb].
      rewrite reslice_ok by lia. cbn [mbind result_bind].
      rewrite Z.add_0_r, !Z.sub_0_r. reflexivity.
    + split.
      * split; [|apply Hinv0; simpl; lia]. cbn [data]. split; [|split].
        -- unfold slice_ok. simpl. lia.
        -- simpl. rewrite (array_of_arr _ _ r) by reflexivity. lia.
        -- exact Hal.
      * split; [reflexivity|]. split; [unfold Cap; simpl; lia|].
        split; [assumption|]. split; [assumption|].
        split; [reflexivity|]. split; [reflexivity|].
        simpl. split; [lia | reflexivity].
  - exists a, (h ++ [replicate (Z.to_nat size) x00]),
           (mkBuffer (Slice (Some (length h)) 0 size size) 0 0 false).
    split.
    + unfold NewSize, Get, Allocator_Get, MaxSize.
      destruct (size <? 0) eqn:E; [lia|]. clear E.
      destruct (size =? 0) eqn:E; [lia|]. clear E.
      destruct ((size <=? 0) || (size >? 65536)) eqn:E; [|lia]. clear E.
      cbn [mbind result_bind]. simpl.
      rewrite makeslice_ok, make_ok by lia. reflexivity.
    + pose proof maxAlloc_int as [_ Hmi]. split.
      * split; [|apply Hinv0; simpl; lia]. cbn [data].
        apply slice_wf_fresh; [lia|]. rewrite length_replicate. lia.
      * split; [reflexivity|]. split; [unfold Cap; simpl; lia|].
        split; [apply alloc_wf_app, Haw|].
        split; [intros s Hs; split;
                  [apply slice_wf_app, Hs | apply bytes_of_app, Hs]|].
        split; [reflexivity|]. split; [reflexivity|].
        simpl. split; [discriminate | lia].
Qed.


End Constructors.

(** ** The cursor invariant *)

Section Invariant.

Import alloc buffer.

Implicit Types (h : heap) (b : Buffer) (s : slice).

Lemma newCap_hdr (L n c newCap : Z) :
  0 <= L <= c -> c <= int_max -> 0 < n <= int_max ->
  (let nc := int_add L n in
   if nc <? int_mul c 2
   then let nc := int_mul c 2 in if nc =? 0 then n else nc
   else nc) = newCap ->
  0 <= newCap ->
  L <= newCap <= int_max /\ (n <= newCap - L \/ int_max < L + n).
Proof.
  intros HL Hc Hn Hnc H0. cbv zeta in Hnc.
  pose proof (wrap_range (L + n)) as Hr1.
  pose proof (wrap_range (c * 2)) as Hr2.
  unfold int_add, int_mul in Hnc.
  destruct (Z_le_gt_dec (L + n) int_max) as [Ha|Ha].
  - rewrite (wrap_id (L + n)) in Hnc, Hr1
      by (revert HL Hn Ha; int_consts; lia).
    destruct (Z_le_gt_dec (c * 2) int_max) as [Hm|Hm].
    + rewrite (wrap_id (c * 2)) in Hnc by (revert HL Hm; int_consts; lia).
      destruct (L + n <? c * 2) eqn:E1; [|lia].
      destruct (c * 2 =? 0) eqn:E2; lia.
    + rewrite (wrap_over (c * 2)) in Hnc, Hr2
        by (revert Hc Hm; int_consts; lia).
      assert (c * 2 - 2 ^ 64 < 0) by (revert Hc; int_consts; lia).
      destruct (L + n <? c * 2 - 2 ^ 64) eqn:E1; lia.
  - rewrite (wrap_over (L + n)) in Hnc, Hr1
      by (revert HL Hc Hn Ha; int_consts; lia).
    assert (Hneg : L + n - 2 ^ 64 < 0) by (revert HL Hc Hn; int_consts; lia).
    destruct (Z_le_gt_dec (c * 2) int_max) as [Hm|Hm].
    + rewrite (wrap_id (c * 2)) in Hnc by (revert HL Hm; int_consts; lia).
      destruct (L + n - 2 ^ 64 <? c * 2) eqn:E1; [|lia].
      destruct (c * 2 =? 0) eqn:E2; lia.
    + rewrite (wrap_over (c * 2)) in Hnc, Hr2
        by (revert Hc Hm; int_consts; lia).
      assert (c * 2 - 2 ^ 64 < 0) by (revert Hc; int_consts; lia).
      destruct (L + n - 2 ^ 64 <? c * 2 - 2 ^ 64) eqn:E1; [|lia].
      destruct (c * 2 - 2 ^ 64 =? 0) eqn:E2; lia.
Qed.

Lemma hdr_Len b : hdr_inv b -> Len b = end_ b - start b.
Proof.
  intros ([? ?] & ? & ?). unfold Len, int_sub. apply wrap_id.
  int_consts. lia.
Qed.

Lemma grow_alloc_hdr h b n h' b' :
  hdr_inv b -> 0 < n <= int_max ->
  grow_alloc h b n = Ok (h', b') ->
  hdr_inv b' /\ start b' = 0 /\
  (n <= len (data b') - end_ b' \/ int_max < end_ b' + n).
Proof.
  intros Hb Hn. pose proof (hdr_Len b Hb) as HL.
  destruct Hb as ([Hs He] & Hlc & Hli).
  unfold grow_alloc. rewrite HL. cbv zeta.
  remember (if int_add (end_ b - start b) n <? int_mul (len (data b)) 2
            then if int_mul (len (data b)) 2 =? 0
                 then n else int_mul (len (data b)) 2
            else int_add (end_ b - start b) n) as newCap eqn:Enc.
  unfold make. destruct (newCap <? 0) eqn:E0; [discriminate|].
  cbn [mbind result_bind].
  destruct (newCap_hdr (end_ b - start b) n (len (data b)) newCap)
    as [Hr Hfree]; try lia.
  { cbv zeta. symmetry. exact Enc. }
  assert (Hres : forall hx,
            Ok (hx, mkBuffer (Slice (Some (length h)) 0 newCap newCap) 0
                             (end_ b - start b) false) = Ok (h', b') ->
            hdr_inv b' /\ start b' = 0 /\
            (n <= len (data b') - end_ b' \/ int_max < end_ b' + n)).
  { intros hx [= _ <-]. unfold hdr_inv, buf_inv. simpl. lia. }
  destruct (end_ b - start b >? 0).
  - destruct (reslice (data b) (start b) (end_ b)); cbn [mbind result_bind];
      [apply Hres | discriminate].
  - cbn [mbind result_bind]. apply Hres.
Qed.

Lemma grow_hdr h b n h' b' :
  hdr_inv b -> is_int n ->
  grow h b n = Ok (h', b') ->
  hdr_inv b' /\
  (n <= 0 \/ n <= len (data b') - end_ b' \/
   (start b' = 0 /\ int_max < end_ b' + n)).
Proof.
  intros Hb [_ Hn]. pose proof (hdr_Len b Hb) as HL.
  pose proof Hb as ([Hs He] & Hlc & Hli).
  unfold grow. destruct (n <=? 0) eqn:E0.
  { intros [= <- <-]. split; [exact Hb | left; lia]. }
  assert (Hfree : int_sub (len (data b)) (end_ b) = len (data b) - end_ b).
  { apply wrap_id. int_consts. lia. }
  rewrite Hfree, HL.
  destruct (len (data b) - end_ b >=? n) eqn:E1.
  { intros [= <- <-]. split; [exact Hb | right; left; lia]. }
  assert (Hn' : 0 < n <= int_max) by lia.
  destruct ((start b >? 0) && (end_ b - start b >? 0)) eqn:E2.
  - destruct (reslice (data b) (start b) (end_ b)); cbn [mbind result_bind];
      [|discriminate].
    cbv zeta. cbn [data end_].
    assert (Hb1 : hdr_inv (mkBuffer (data b) 0 (end_ b - start b) (pooled b))).
    { unfold hdr_inv, buf_inv. simpl. lia. }
    assert (Hfree1 : int_sub (len (data b)) (end_ b - start b)
                     = len (data b) - (end_ b - start b)).
    { apply wrap_id. int_consts. lia. }
    rewrite Hfree1.
    destruct (len (data b) - (end_ b - start b) >=? n) eqn:E3.
    + intros [= <- <-]. split; [exact Hb1 | clear Hb1; right; left; simpl; lia].
    + intros Hga.
      destruct (grow_alloc_hdr _ _ _ _ _ Hb1 Hn' Hga) as (Hb' & Hs' & Hf).
      split; [exact Hb'|]. right. destruct Hf; [left | right]; tauto.
  - intros Hga.
    destruct (grow_alloc_hdr _ _ _ _ _ Hb Hn' Hga) as (Hb' & Hs' & Hf).
    split; [exact Hb'|]. right. destruct Hf; [left | right]; tauto.
Qed.


Lemma zero_hdr (p : bool) : hdr_inv (mkBuffer nil_slice 0 0 p).
Proof. unfold hdr_inv, buf_inv, int_max. simpl. lia. Qed.

Lemma NewSize_hdr pick a h size a' h' b :
  is_int size -> NewSize pick a h size = Ok (a', h', b) -> hdr_inv b.
Proof.
  intros [_ Hs]. unfold NewSize.
  set (sz := if size <? 0 then 0 else size).
  assert (Hsz : 0 <= sz <= int_max).
  { subst sz. destruct (size <? 0) eqn:E; [|lia]. unfold int_max. lia. }
  clearbody sz.
  destruct (sz =? 0) eqn:E0.
  { intros [= _ _ <-]. apply zero_hdr. }
  destruct (Get pick a h sz) as [[[a1 h1] d]|]; cbn [mbind result_bind];
    [|discriminate].
  destruct (negb (is_nil d)).
  - destruct (reslice d 0 sz) as [d'|] eqn:Er; cbn [mbind result_bind];
      [|discriminate].
    apply reslice_inv in Er as (_ & Hc & ->).
    intros [= _ _ <-]. unfold hdr_inv, buf_inv. simpl. lia.
  - unfold makeslice, make.
    destruct ((sz <? 0) || (maxAlloc <? sz)); [discriminate|].
    destruct (sz <? 0); [discriminate|].
    cbn [mbind result_bind]. intros [= _ _ <-].
    unfold hdr_inv, buf_inv. simpl. lia.
Qed.

Lemma FromBytes_hdr s : slice_ok s -> hdr_inv (FromBytes s).
Proof. intros (? & ? & ?). unfold hdr_inv, buf_inv. simpl. lia. Qed.

Lemma Write_hdr h b p h' b' n e :
  hdr_inv b -> slice_ok p -> Write h b p = Ok (h', b', n, e) -> hdr_inv b'.
Proof.
  intros Hb (Hpo & Hpl & Hpc). unfold Write.
  destruct (len p =? 0). { intros [= _ <- _ _]. exact Hb. }
  destruct (grow h b (len p)) as [[h1 b1]|] eqn:Eg; cbn [mbind result_bind];
    [|discriminate].
  apply grow_hdr in Eg as [Hb1 _]; [|exact Hb | unfold is_int, int_min; lia].
  destruct (reslice (data b1) (end_ b1) (len (data b1))) as [dst|] eqn:Er;
    cbn [mbind result_bind]; [|discriminate].
  apply reslice_inv in Er as (_ & _ & ->).
  unfold copy. cbn [len]. intros [= _ <- _ _].
  destruct Hb1 as ([? ?] & ? & ?).
  assert (Hadd : int_add (end_ b1) (Z.min (len (data b1) - end_ b1) (len p))
                 = end_ b1 + Z.min (len (data b1) - end_ b1) (len p)).
  { apply wrap_id. int_consts. lia. }
  rewrite Hadd. unfold hdr_inv, buf_inv. simpl. lia.
Qed.

Lemma WriteByte_hdr h b c h' b' e :
  hdr_inv b -> WriteByte h b c = Ok (h', b', e) -> hdr_inv b'.
Proof.
  intros Hb. unfold WriteByte.
  destruct (grow h b 1) as [[h1 b1]|] eqn:Eg; cbn [mbind result_bind];
    [|discriminate].
  apply grow_hdr in Eg as [Hb1 _];
    [|exact Hb | unfold is_int, int_min, int_max; lia].
  unfold set_index.
  destruct ((0 <=? end_ b1) && (end_ b1 <? len (data b1))) eqn:E;
    cbn [mbind result_bind]; [|discriminate].
  intros [= _ <- _]. destruct Hb1 as ([? ?] & ? & ?).
  assert (Hadd : int_add (end_ b1) 1 = end_ b1 + 1).
  { apply wrap_id. int_consts. lia. }
  rewrite Hadd. unfold hdr_inv, buf_inv. simpl. lia.
Qed.

Lemma Extend_hdr h b n h' b' r :
  hdr_inv b -> is_int n -> Extend h b n = Ok (h', b', r) -> hdr_inv b'.
Proof.
  intros Hb Hn. unfold Extend.
  destruct (n <? 0) eqn:E0; [discriminate|].
  destruct (grow h b n) as [[h1 b1]|] eqn:Eg; cbn [mbind result_bind];
    [|discriminate].
  apply grow_hdr in Eg as [Hb1 Hfree]; [|exact Hb | exact Hn].
  cbv zeta. cbn [data end_].
  destruct (reslice (data b1) (end_ b1) (int_add (end_ b1) n)) as [r'|] eqn:Er;
    cbn [mbind result_bind]; [|discriminate].
  apply reslice_inv in Er as (Hlo & _ & _).
  intros [= _ <- _]. destruct Hb1 as ([? ?] & ? & ?). destruct Hn as [_ Hn].
  unfold int_add in *.
  destruct (Z_le_gt_dec (end_ b1 + n) int_max) as [Hs|Hs].
  - rewrite wrap_id in * by (int_consts; lia).
    unfold hdr_inv, buf_inv. simpl. lia.
  - exfalso. rewrite wrap_over in Hlo by (revert Hs; int_consts; lia).
    revert Hlo. int_consts. lia.
Qed.

Lemma consumed_hdr b st :
  hdr_inv b -> start b <= st <= end_ b -> hdr_inv (consumed b st).
Proof.
  intros ([? ?] & ? & ?) Hst. unfold consumed.
  destruct (st =? end_ b); unfold hdr_inv, buf_inv; simpl; lia.
Qed.

Lemma Read_hdr h b p h' b' n e :
  hdr_inv b -> slice_ok p -> Read h b p = Ok (h', b', n, e) -> hdr_inv b'.
Proof.
  intros Hb (Hpo & Hpl & Hpc). pose proof (hdr_Len b Hb) as HL.
  unfold Read, IsEmpty. rewrite HL.
  destruct (end_ b - start b =? 0). { intros [= _ <- _ _]. exact Hb. }
  destruct (reslice (data b) (start b) (end_ b)) as [src|] eqn:Er;
    cbn [mbind result_bind]; [|discriminate].
  apply reslice_inv in Er as (_ & _ & ->).
  unfold copy. cbn [len]. intros [= _ <- _ _].
  pose proof Hb as ([? ?] & ? & ?).
  apply consumed_hdr; [exact Hb|].
  unfold int_add. rewrite wrap_id by (int_consts; lia). lia.
Qed.

Lemma ReadByte_hdr h b b' c e :
  hdr_inv b -> ReadByte h b = Ok (b', c, e) -> hdr_inv b'.
Proof.
  intros Hb. pose proof (hdr_Len b Hb) as HL.
  unfold ReadByte, IsEmpty. rewrite HL.
  destruct (end_ b - start b =? 0) eqn:E. { intros [= <- _ _]. exact Hb. }
  destruct (index h (data b) (start b)); cbn [mbind result_bind];
    [|discriminate].
  intros [= <- _ _]. pose proof Hb as ([? ?] & ? & ?).
  apply consumed_hdr; [exact Hb|].
  unfold int_add. rewrite wrap_id by (int_consts; lia). lia.
Qed.

Lemma ReadBytes_hdr h b n h' b' out e :
  hdr_inv b -> ReadBytes h b n = Ok (h', b', out, e) -> hdr_inv b'.
Proof.
  intros Hb. pose proof (hdr_Len b Hb) as HL.
  unfold ReadBytes. rewrite HL.
  destruct (n <? 0) eqn:E0. { intros [= _ <- _ _]. exact Hb. }
  destruct (end_ b - start b <? n) eqn:E1. { intros [= _ <- _ _]. exact Hb. }
  destruct (make h n) as [[h1 o]|]; cbn [mbind result_bind]; [|discriminate].
  destruct (reslice (data b) (start b) (int_add (start b) n));
    cbn [mbind result_bind]; [|discriminate].
  intros [= _ <- _ _]. pose proof Hb as ([? ?] & ? & ?).
  apply consumed_hdr; [exact Hb|].
  unfold int_add. rewrite wrap_id by (int_consts; lia). lia.
Qed.

Lemma Reset_hdr b : hdr_inv b -> hdr_inv (Reset b).
Proof. intros ([? ?] & ? & ?). unfold hdr_inv, buf_inv. simpl. lia. Qed.

Lemma Release_hdr a b a' b' :
  Release a (Some b) = Ok (a', Some b') -> hdr_inv b'.
Proof.
  unfold Release.
  destruct (if pooled b && negb (is_nil (data b))
            then Put a (data b) ≫= λ '(a'0, _), Ok a'0 else Ok a);
    cbn [mbind result_bind]; [|discriminate].
  intros [= _ <-]. apply zero_hdr.
Qed.

Lemma DefaultSize_int : is_int DefaultSize.
Proof. apply wrap_range. Qed.

Lemma reachable_hdr b : reachable b -> hdr_inv b.
Proof.
  induction 1.
  - eapply NewSize_hdr; [apply DefaultSize_int | eassumption].
  - eapply NewSize_hdr; eassumption.
  - apply FromBytes_hdr. assumption.
  - eapply Write_hdr; eassumption.
  - eapply WriteByte_hdr; eassumption.
  - eapply Extend_hdr; eassumption.
  - eapply Read_hdr; eassumption.
  - eapply ReadByte_hdr; eassumption.
  - eapply ReadBytes_hdr; eassumption.
  - assumption.
  - apply Reset_hdr. assumption.
  - eapply Release_hdr; eassumption.
Qed.

End Invariant.

(** ** The calls as they leave the heap and the receiver *)

Section RunFacts.

Import alloc buffer.

Local Open Scope Z_scope.

Lemma make_len h n h1 d : make h n = Ok (h1, d) -> 0 <= n /\ len d = n.
Proof.
  unfold make. destruct (n <? 0) eqn:E; [discriminate|].
  intros [= _ <-]. simpl. lia.
Qed.

(** On normal return [grow_run] is [grow], and the array it allocated is
    within the run time's limit. *)
Lemma grow_alloc_run_Ok h b n h' b' :
  grow_alloc_run h b n = (h', b', Ok tt) ->
  grow_alloc h b n = Ok (h', b') /\ len (data b') <= maxAlloc.
Proof.
  unfold grow_alloc_run, grow_alloc. cbv zeta.
  remember (if int_add (Len b) n <? int_mul (len (data b)) 2
            then if int_mul (len (data b)) 2 =? 0
                 then n else int_mul (len (data b)) 2
            else int_add (Len b) n) as nc eqn:Enc. clear Enc.
  destruct (makeslice h nc) as [[h1 d]|m] eqn:Em; [|discriminate].
  apply makeslice_inv in Em as [Hnc Hm]. rewrite Hm.
  apply make_len in Hm as [_ Hd]. cbn [mbind result_bind].
  destruct (Len b >? 0).
  - destruct (reslice (data b) (start b) (end_ b)) as [src|m];
      [|discriminate].
    cbn [mbind result_bind]. intros [= <- <-]. simpl. split; [reflexivity|lia].
  - cbn [mbind result_bind]. intros [= <- <-]. simpl. split; [reflexivity|lia].
Qed.

Lemma grow_alloc_agree h b n h' b' :
  grow_alloc h b n = Ok (h', b') -> len (data b') <= maxAlloc ->
  grow_alloc_run h b n = (h', b', Ok tt).
Proof.
  unfold grow_alloc_run, grow_alloc. cbv zeta.
  remember (if int_add (Len b) n <? int_mul (len (data b)) 2
            then if int_mul (len (data b)) 2 =? 0
                 then n else int_mul (len (data b)) 2
            else int_add (Len b) n) as nc eqn:Enc. clear Enc.
  destruct (make h nc) as [[h1 d]|m] eqn:Em; [|discriminate].
  pose proof (make_len _ _ _ _ Em) as [Hnc Hd]. cbn [mbind result_bind].
  destruct (Len b >? 0).
  - destruct (reslice (data b) (start b) (end_ b)) as [src|m];
      [|discriminate].
    cbn [mbind result_bind]. intros [= <- <-]. simpl. intros Hlim.
    rewrite makeslice_ok, Em by lia. reflexivity.
  - cbn [mbind result_bind]. intros [= <- <-]. simpl. intros Hlim.
    rewrite makeslice_ok, Em by lia. reflexivity.
Qed.

Lemma grow_run_Ok h b n h' b' :
  grow_run h b n = (h', b', Ok tt) -> grow h b n = Ok (h', b').
Proof.
  unfold grow_run, grow.
  destruct (n <=? 0); [intros [= <- <-]; reflexivity|]. cbv zeta.
  destruct (int_sub (len (data b)) (end_ b) >=? n);
    [intros [= <- <-]; reflexivity|].
  destruct ((start b >? 0) && (Len b >? 0)).
  - destruct (reslice (data b) (start b) (end_ b)) as [src|m];
      [|discriminate].
    cbn [mbind result_bind].
    destruct (int_sub _ _ >=? n); [intros [= <- <-]; reflexivity|].
    intros H. apply grow_alloc_run_Ok in H as [H _]. exact H.
  - intros H. apply grow_alloc_run_Ok in H as [H _]. exact H.
Qed.

Lemma grow_agree h b n h' b' :
  grow h b n = Ok (h', b') -> len (data b') <= maxAlloc ->
  grow_run h b n = (h', b', Ok tt).
Proof.
  unfold grow_run, grow.
  destruct (n <=? 0); [intros [= <- <-]; reflexivity|]. cbv zeta.
  destruct (int_sub (len (data b)) (end_ b) >=? n);
    [intros [= <- <-]; reflexivity|].
  destruct ((start b >? 0) && (Len b >? 0)).
  - destruct (reslice (data b) (start b) (end_ b)) as [src|m];
      [|discriminate].
    cbn [mbind result_bind].
    destruct (int_sub _ _ >=? n); [intros [= <- <-]; reflexivity|].
    apply grow_alloc_agree.
  - apply grow_alloc_agree.
Qed.

Lemma Extend_run_Ok h b n h' b' r :
  Extend_run h b n = (h', b', Ok r) -> Extend h b n = Ok (h', b', r).
Proof.
  unfold Extend_run, Extend. destruct (n <? 0); [discriminate|].
  destruct (grow_run h b n) as [[h1 b1] [[]|m]] eqn:Eg; [|discriminate].
  apply grow_run_Ok in Eg. rewrite Eg. cbn [mbind result_bind]. cbv zeta.
  intros [= <- <- Hr]. cbn [data end_] in Hr |- *. rewrite Hr. reflexivity.
Qed.

Lemma Extend_agree h b n h' b' r :
  Extend h b n = Ok (h', b', r) -> len (data b') <= maxAlloc ->
  Extend_run h b n = (h', b', Ok r).
Proof.
  unfold Extend_run, Extend. destruct (n <? 0); [discriminate|].
  destruct (grow h b n) as [[h1 b1]|m] eqn:Eg; [|discriminate].
  cbn [mbind result_bind]. cbv zeta.
  destruct (reslice _ _ _) as [r'|m] eqn:Er; [|discriminate].
  cbn [mbind result_bind]. intros [= <- <- <-]. cbn [data]. intros Hlim.
  rewrite (grow_agree _ _ _ _ _ Eg Hlim). cbv zeta. f_equal. exact Er.
Qed.

(** Within the limit [grow] allocates within the limit. *)
Lemma grow_within_limit h b n h' b' :
  buf_wf h b -> 0 <= n ->
  end_ b - start b + n <= maxAlloc -> 2 * len (data b) <= maxAlloc ->
  grow h b n = Ok (h', b') -> len (data b') <= maxAlloc.
Proof.
  intros Hb Hn Hov Hdbl Hg. pose proof maxAlloc_int as [_ Hmi].
  pose proof Hb as (((_ & Hl & _) & _) & _).
  destruct (Z.eq_dec n 0) as [->|Hnz].
  { unfold grow in Hg. simpl in Hg. injection Hg as <- <-. lia. }
  destruct (grow_cases h b n Hb ltac:(lia) ltac:(lia))
    as [(_ & Hg') | [(_ & _ & _ & _ & Hg')
                    | (_ & _ & newCap & Hrange & Hmax & Hg')]];
    rewrite Hg' in Hg; injection Hg as <- <-; cbn [data len]; lia.
Qed.

End RunFacts.

(** ** Claims about the buffer *)

Section BufferClaims.

Import alloc buffer.

Implicit Types (h : heap) (b : Buffer) (s : slice).

(** C10. For a negative size [NewSize] behaves exactly as for size 0: it
    returns the empty buffer, not pooled, with nil storage, and leaves the
    allocator and the heap as they were. *)
Theorem NewSize_negative (pick : nat) (a : Allocator) h (size : Z) :
  size < 0 ->
  NewSize pick a h size = NewSize pick a h 0 /\
  NewSize pick a h size = Ok (a, h, mkBuffer nil_slice 0 0 false).
Proof.
  intros Hs. unfold NewSize.
  destruct (size <? 0) eqn:E; [|lia]. split; reflexivity.
Qed.

Lemma NewSize_negative_witness :
  -5 < 0 /\
  NewSize 0 NewAllocator [] (-5) = NewSize 0 NewAllocator [] 0 /\
  NewSize 0 NewAllocator [] (-5)
    = Ok (NewAllocator, [], mkBuffer nil_slice 0 0 false).
Proof.
  split; [lia|]. apply (NewSize_negative 0 NewAllocator [] (-5)). lia.
Defined.

(** C7. [NewSize] never fails for a size up to the run time's allocation
    limit [maxAlloc].  For a size that the allocator serves (1 to 65536)
    the storage is the region that [alloc.Get] returned, whose length is
    the size asked for, and [pooled] is set.  When the pool reports
    unservable it falls back: above 65536 exactly [size] fresh bytes are
    allocated, not pooled; for 0 (and below) the buffer is empty,
    nil-backed and not pooled.  Above the limit the fallback allocation
    panics. *)
Theorem NewSize_never_fails (pick : nat) (a : Allocator) h (size : Z) :
  alloc_inv a ->
  (size <= maxAlloc ->
   exists a' h' b, NewSize pick a h size = Ok (a', h', b)) /\
  (1 <= size <= 65536 ->
   exists a' h' r,
     Allocator_Get pick a h size = Ok (a', h', r) /\
     is_nil r = false /\ len r = size /\ alloc_inv a' /\
     NewSize pick a h size = Ok (a', h', mkBuffer r 0 0 true)) /\
  (65536 < size <= maxAlloc ->
   NewSize pick a h size =
     Ok (a, h ++ [replicate (Z.to_nat size) x00],
         mkBuffer (Slice (Some (length h)) 0 size size) 0 0 false)) /\
  (size <= 0 ->
   NewSize pick a h size = Ok (a, h, mkBuffer nil_slice 0 0 false)) /\
  (maxAlloc < size ->
   NewSize pick a h size = Panic "makeslice: len out of range").
Proof.
  intros Ha. pose proof maxAlloc_int as [Hlo _].
  assert (Hin : 1 <= size <= 65536 ->
          exists a' h' r,
            Allocator_Get pick a h size = Ok (a', h', r) /\
            is_nil r = false /\ len r = size /\ alloc_inv a' /\
            NewSize pick a h size = Ok (a', h', mkBuffer r 0 0 true)).
  { intros Hs.
    destruct (Allocator_Get_in_range pick a h size Ha Hs)
      as (a' & h' & r & Hget & Hnil & Hlen & (_ & Hle & _) & Ha' & _).
    exists a', h', r.
    split; [exact Hget|]. split; [exact Hnil|]. split; [exact Hlen|].
    split; [exact Ha'|]. unfold NewSize, Get.
    destruct (size <? 0) eqn:E; [lia|]. clear E.
    destruct (size =? 0) eqn:E; [lia|]. clear E.
    rewrite Hget. cbn [mbind result_bind]. rewrite Hnil. cbn [negb].
    rewrite reslice_ok by lia. cbn [mbind result_bind].
    rewrite Z.add_0_r, !Z.sub_0_r, <- Hlen. destruct r; reflexivity. }
  assert (Hfall : 65536 < size ->
          NewSize pick a h size = '(h'', d') ← makeslice h size;
                                  Ok (a, h'', mkBuffer d' 0 0 false)).
  { intros Hs. unfold NewSize, Get, Allocator_Get, MaxSize.
    destruct (size <? 0) eqn:E; [lia|]. clear E.
    destruct (size =? 0) eqn:E; [lia|]. clear E.
    destruct ((size <=? 0) || (size >? 65536)) eqn:E; [|lia]. clear E.
    reflexivity. }
  assert (Hbig : 65536 < size <= maxAlloc ->
          NewSize pick a h size =
            Ok (a, h ++ [replicate (Z.to_nat size) x00],
                mkBuffer (Slice (Some (length h)) 0 size size) 0 0 false)).
  { intros Hs. rewrite Hfall, makeslice_ok, make_ok by lia. reflexivity. }
  assert (Hzero : size <= 0 ->
          NewSize pick a h size = Ok (a, h, mkBuffer nil_slice 0 0 false)).
  { intros Hs. unfold NewSize.
    destruct (size <? 0) eqn:E; [reflexivity|].
    destruct (size =? 0) eqn:E0; [reflexivity | lia]. }
  split; [|split; [exact Hin | split; [exact Hbig | split; [exact Hzero|]]]].
  - intros Hlim.
    destruct (Z_le_gt_dec size 0) as [H0|H0];
      [|destruct (Z_le_gt_dec size 65536) as [H1|H1]].
    + eexists _, _, _. apply Hzero, H0.
    + destruct (Hin ltac:(lia)) as (a' & h' & r & _ & _ & _ & _ & Hn).
      eexists _, _, _. exact Hn.
    + eexists _, _, _. apply Hbig. lia.
  - intros Hs. rewrite Hfall, makeslice_over by lia. reflexivity.
Qed.

Lemma NewSize_never_fails_witness :
  alloc_inv NewAllocator /\
  (exists a' h' r,
     Allocator_Get 0 NewAllocator [] 10 = Ok (a', h', r) /\ len r = 10 /\
     NewSize 0 NewAllocator [] 10 = Ok (a', h', mkBuffer r 0 0 true)) /\
  NewSize 0 NewAllocator [] 65537 =
    Ok (NewAllocator, [] ++ [replicate (Z.to_nat 65537) x00],
        mkBuffer (Slice (Some 0%nat) 0 65537 65537) 0 0 false) /\
  NewSize 0 NewAllocator [] (maxAlloc + 1) =
    Panic "makeslice: len out of range".
Proof.
  split; [exact NewAllocator_inv|].
  pose proof (NewSize_never_fails 0 NewAllocator [] 10 NewAllocator_inv)
    as (_ & Hin & _).
  pose proof (NewSize_never_fails 0 NewAllocator [] 65537 NewAllocator_inv)
    as (_ & _ & Hbig & _).
  pose proof (NewSize_never_fails 0 NewAllocator [] (maxAlloc + 1)
                NewAllocator_inv) as (_ & _ & _ & _ & Hover).
  split; [|split].
  - destruct (Hin ltac:(lia)) as (a' & h' & r & Hg & _ & Hl & _ & Hn).
    exists a', h', r. repeat split; assumption.
  - apply Hbig. unfold maxAlloc. lia.
  - apply Hover. lia.
Defined.

(** C7 as stated fails above the allocation limit: [NewSize] with the
    largest [int] is not served by the pool and falls back to
    [make([]byte, size)], which panics. *)
Lemma NewSize_beyond_limit :
  alloc_inv NewAllocator /\ is_int int_max /\
  NewSize 0 NewAllocator [] int_max = Panic "makeslice: len out of range".
Proof.
  split; [exact NewAllocator_inv|]. split; [|reflexivity].
  unfold is_int, int_min, int_max. lia.
Qed.

(** C8. [Release] never fails.  For a non-nil buffer whose storage is
    pool-owned the storage goes to [Put] (whose error, if any, is dropped),
    and the buffer becomes the zero buffer, the one [NewSize(0)] builds.
    For a nil buffer, a released (zero) buffer or a buffer made by
    [FromBytes] nothing is handed to the pool: the allocator is unchanged.
    In every case the allocator keeps its shape. *)
Theorem Release_safe (a : Allocator) (ob : option Buffer) :
  alloc_inv a ->
  exists a' ob',
    Release a ob = Ok (a', ob') /\ alloc_inv a' /\
    (ob = None -> a' = a /\ ob' = None) /\
    (forall b, ob = Some b ->
       ob' = Some zero_Buffer /\
       (forall pick h, NewSize pick a' h 0 = Ok (a', h, zero_Buffer)) /\
       (pooled b = true -> is_nil (data b) = false ->
        exists e, Allocator_Put a (data b) = Ok (a', e)) /\
       (pooled b = false \/ is_nil (data b) = true -> a' = a)) /\
    (ob = Some zero_Buffer -> a' = a /\ ob' = Some zero_Buffer) /\
    (forall s, ob = Some (FromBytes s) -> a' = a).
Proof.
  intros Ha. destruct ob as [b|].
  - unfold Release.
    destruct (pooled b && negb (is_nil (data b))) eqn:E.
    + destruct (Allocator_Put_total a (data b) Ha) as (a' & e & Hput & Ha' & _).
      unfold Put. rewrite Hput. cbn [mbind result_bind].
      exists a', (Some zero_Buffer). split; [reflexivity|].
      split; [exact Ha'|]. split; [discriminate|].
      apply andb_true_iff in E as [Hp Hn]. apply negb_true_iff in Hn.
      split; [|split].
      * intros b0 [= <-]. split; [reflexivity|]. split; [reflexivity|].
        split; [intros _ _; exists e; exact Hput|].
        intros [?|?]; congruence.
      * intros [= ->]. discriminate Hp.
      * intros s [= ->]. discriminate Hp.
    + cbn [mbind result_bind].
      exists a, (Some zero_Buffer). split; [reflexivity|].
      split; [exact Ha|]. split; [discriminate|].
      split; [|split].
      * intros b0 [= <-]. split; [reflexivity|]. split; [reflexivity|].
        split; [|reflexivity].
        intros Hp Hn. rewrite Hp, Hn in E. discriminate E.
      * intros _. split; reflexivity.
      * reflexivity.
  - exists a, None. split; [reflexivity|]. split; [exact Ha|].
    split; [split; reflexivity|].
    split; [discriminate|]. split; discriminate.
Qed.

Lemma Release_safe_witness :
  alloc_inv NewAllocator /\
  exists a' ob',
    Release NewAllocator (Some (FromBytes (Slice (Some 0%nat) 0 1 1)))
      = Ok (a', ob') /\
    alloc_inv a' /\ a' = NewAllocator /\ ob' = Some zero_Buffer.
Proof.
  split; [exact NewAllocator_inv|].
  destruct (Release_safe NewAllocator
              (Some (FromBytes (Slice (Some 0%nat) 0 1 1))) NewAllocator_inv)
    as (a' & ob' & Hr & Ha' & _ & Hb & _ & Hf).
  exists a', ob'. split; [exact Hr|]. split; [exact Ha'|].
  split; [apply (Hf _ eq_refl) | apply (Hb _ eq_refl)].
Defined.

(** C6, as the code has it.  A negative argument makes [Extend] panic;
    [ReadBytes] does not panic: it returns the error "buffer: negative
    length" to its caller and leaves the buffer and the heap untouched. *)
Theorem negative_length h b (n : Z) :
  n < 0 ->
  Extend h b n = Panic "buffer: negative extend size" /\
  ReadBytes h b n =
    Ok (h, b, nil_slice, Some (ErrNew "buffer: negative length")).
Proof.
  intros Hn. unfold Extend, ReadBytes.
  destruct (n <? 0) eqn:E; [|lia]. split; reflexivity.
Qed.

Lemma negative_length_witness :
  -1 < 0 /\
  Extend [] zero_Buffer (-1) = Panic "buffer: negative extend size" /\
  ReadBytes [] zero_Buffer (-1) =
    Ok ([], zero_Buffer, nil_slice, Some (ErrNew "buffer: negative length")).
Proof.
  split; [lia|]. apply (negative_length [] zero_Buffer (-1)). lia.
Defined.

(** C6 as stated fails: [ReadBytes(-1)] returns normally, with an error
    value, where the claim has a panic. *)
Lemma ReadBytes_negative_returns :
  -1 < 0 /\
  (exists r, ReadBytes [] zero_Buffer (-1) = Ok r) /\
  ~ (exists msg, ReadBytes [] zero_Buffer (-1) = Panic msg).
Proof.
  split; [lia|]. split.
  - eexists. reflexivity.
  - intros [msg H]. discriminate H.
Qed.

(** C5. For [n >= 0]: with fewer than [n] readable bytes [ReadBytes(n)]
    reports [io.EOF] and changes nothing (data, start, end, pooled and the
    heap are as before).  With at least [n] it returns the first [n]
    readable bytes in a slice of a fresh array, so no existing slice
    shares its storage and the arrays already in the heap are untouched;
    [start] advances by [n], and both cursors go back to 0 when nothing
    readable is left. *)
Theorem ReadBytes_exact h b (n : Z) :
  buf_wf h b -> 0 <= n ->
  (Len b < n -> ReadBytes h b n = Ok (h, b, nil_slice, Some EOF)) /\
  (n <= Len b ->
   let out := Slice (Some (length h)) 0 n n in
   let h' := h ++ [take (Z.to_nat n) (readable h b)] in
   ReadBytes h b n =
     Ok (h', (if n =? Len b
              then mkBuffer (data b) 0 0 (pooled b)
              else mkBuffer (data b) (start b + n) (end_ b) (pooled b)),
         out, None) /\
   bytes_of h' out = take (Z.to_nat n) (readable h b) /\
   length (bytes_of h' out) = Z.to_nat n /\
   (forall s, slice_wf h s -> arr s <> arr out)).
Proof.
  intros Hb Hn. pose proof Hb as [Hwf Hinv].
  pose proof (length_readable h b Hb) as Hrl.
  pose proof Hwf as (Hok & Hlen & Ha).
  pose proof Hok as (Ho & Hl & Hc). pose proof Hinv as (Hs & He).
  pose proof (Len_eq b Hok Hinv) as HLen.
  unfold ReadBytes. rewrite HLen.
  destruct (n <? 0) eqn:E0; [lia|]. clear E0.
  split.
  - intros Hlt. destruct (end_ b - start b <? n) eqn:E; [reflexivity | lia].
  - intros Hle. cbv zeta.
    destruct (end_ b - start b <? n) eqn:E; [lia|]. clear E.
    rewrite make_ok by assumption. cbn [mbind result_bind].
    assert (Hadd : int_add (start b) n = start b + n).
    { apply wrap_id. int_consts. lia. }
    rewrite Hadd, reslice_ok by lia. cbn [mbind result_bind].
    unfold copy. cbn [len fst].
    replace (start b + n - start b) with n by lia.
    rewrite Z.min_id.
    assert (Hsrc : sub (bytes_of (h ++ [replicate (Z.to_nat n) x00])
                          (Slice (arr (data b)) (off (data b) + start b)
                                 n (cap (data b) - start b))) 0 n
                   = take (Z.to_nat n) (readable h b)).
    { unfold bytes_of. cbn [off len].
      rewrite (array_of_arr _ _ (data b)) by reflexivity.
      rewrite array_of_app by assumption.
      rewrite readable_eq by assumption.
      rewrite sub_sub by lia. rewrite Z.add_0_r.
      unfold sub. rewrite take_take. f_equal. lia. }
    rewrite Hsrc.
    assert (Htl : length (take (Z.to_nat n) (readable h b)) = Z.to_nat n).
    { rewrite length_take. lia. }
    assert (Hst : store (h ++ [replicate (Z.to_nat n) x00])
                    (Slice (Some (length h)) 0 n n)
                    (take (Z.to_nat n) (readable h b))
                  = h ++ [take (Z.to_nat n) (readable h b)]).
    { unfold store. cbn [arr off]. rewrite array_of_fresh, insert_snoc.
      rewrite splice_zeros by lia.
      replace (Z.to_nat (n - Z.of_nat (length (take (Z.to_nat n)
                                                 (readable h b)))))
        with 0%nat by lia.
      simpl. rewrite app_nil_r. reflexivity. }
    rewrite Hst.
    assert (Hcons : consumed b (start b + n) =
                    if n =? end_ b - start b
                    then mkBuffer (data b) 0 0 (pooled b)
                    else mkBuffer (data b) (start b + n) (end_ b) (pooled b)).
    { unfold consumed.
      destruct (start b + n =? end_ b) eqn:E1;
        destruct (n =? end_ b - start b) eqn:E2; try reflexivity; lia. }
    rewrite Hcons.
    split; [reflexivity|].
    assert (Hout : bytes_of (h ++ [take (Z.to_nat n) (readable h b)])
                     (Slice (Some (length h)) 0 n n)
                   = take (Z.to_nat n) (readable h b)).
    { unfold bytes_of. rewrite array_of_fresh. cbn [off len].
      apply sub_0_all. lia. }
    split; [exact Hout|]. split; [rewrite Hout; exact Htl|].
    intros s (_ & _ & Has) Heq. cbn [arr] in Heq.
    rewrite Heq in Has. lia.
Qed.

Lemma ReadBytes_exact_witness :
  let h := [[x61; x62; x63]] in
  let b := FromBytes (Slice (Some 0%nat) 0 3 3) in
  buf_wf h b /\ 0 <= 2 /\
  ReadBytes h b 5 = Ok (h, b, nil_slice, Some EOF) /\
  ReadBytes h b 2 =
    Ok (h ++ [[x61; x62]], mkBuffer (Slice (Some 0%nat) 0 3 3) 2 3 false,
        Slice (Some 1%nat) 0 2 2, None).
Proof.
  intros h b.
  assert (Hb : buf_wf h b).
  { unfold buf_wf, slice_wf, slice_ok, buf_inv, int_max. simpl. lia. }
  split; [exact Hb|]. split; [lia|]. split.
  - apply (ReadBytes_exact h b 5 Hb); [lia | reflexivity].
  - apply (ReadBytes_exact h b 2 Hb); [lia | vm_compute; discriminate].
Defined.

(** X21. The three steps of [grow(n)], for [n > 0] and sizes within the
    run time's allocation limit: neither [Len + n] nor twice the capacity
    exceeds [maxAlloc].
    - If the free space [capacity - end] covers [n], [grow(n)] changes
      nothing.
    - Otherwise, if [start > 0] and there is readable content, the content
      is shifted to offset 0 of the same storage ([start = 0],
      [end = Len]); if the free space now covers [n], that is all.
    - Otherwise a fresh array of [max(Len + n, 2 * capacity)] bytes (which
      is [n] for capacity 0) is allocated; it begins with the readable
      content, the cursors are [start = 0], [end = Len], and the buffer is
      no longer pool-owned. *)
Theorem grow_steps h b (n : Z) :
  buf_wf h b -> 0 < n ->
  Len b + n <= maxAlloc -> 2 * Cap b <= maxAlloc ->
  let free := Cap b - end_ b in
  let newCap := Z.max (Len b + n) (2 * Cap b) in
  (n <= free -> grow_run h b n = (h, b, Ok tt)) /\
  (free < n -> 0 < start b -> 0 < Len b -> n <= Cap b - Len b ->
   grow_run h b n =
     (compacted h b, mkBuffer (data b) 0 (Len b) (pooled b), Ok tt) /\
   readable (compacted h b) (mkBuffer (data b) 0 (Len b) (pooled b))
     = readable h b) /\
  (free < n -> ~ (0 < start b /\ 0 < Len b /\ n <= Cap b - Len b) ->
   let h1 := if (0 <? start b) && (0 <? Len b) then compacted h b else h in
   let b' := mkBuffer (Slice (Some (length h)) 0 newCap newCap)
                      0 (Len b) false in
   grow_run h b n =
     (h1 ++ [readable h b ++ replicate (Z.to_nat (newCap - Len b)) x00],
      b', Ok tt) /\
   readable (h1 ++ [readable h b ++
                    replicate (Z.to_nat (newCap - Len b)) x00]) b'
     = readable h b /\
   Len b + n <= Cap b' /\ 2 * Cap b <= Cap b' /\
   (Cap b = 0 -> Cap b' = n) /\
   (forall s, slice_wf h s -> arr s <> arr (data b'))).
Proof.
  intros Hb Hn. pose proof Hb as [Hwf Hinv].
  pose proof Hwf as (Hok & Hlen & Ha).
  pose proof Hok as (Ho & Hl & Hc). pose proof Hinv as (Hs & He).
  pose proof (length_readable h b Hb) as Hrl.
  pose proof maxAlloc_int as [_ Hmi].
  rewrite (Len_eq b Hok Hinv). unfold Cap. intros Hlim Hdbl. cbv zeta.
  assert (Hov : end_ b - start b + n <= int_max) by lia.
  assert (Hdi : 2 * len (data b) <= int_max) by lia.
  destruct (grow_cases h b n Hb Hn Hov)
    as [(Hfree & Hg) | [(Hfree & Hst & HL & Hfit & Hg)
                       | (Hfree & Hno & newCap & Hrange & Hmax & Hg)]];
    pose proof (grow_agree _ _ _ _ _ Hg) as Hrun; cbn [data len] in Hrun.
  - split; [intros _; apply Hrun; lia|]. split; intros; lia.
  - split; [intros; lia|]. split; [|intros _ Hno; exfalso; apply Hno; lia].
    intros _ _ _ _. split; [apply Hrun; lia | apply readable_compacted, Hb].
  - split; [intros; lia|]. split; [intros; exfalso; apply Hno; lia|].
    intros _ _. rewrite <- (Hmax Hdi).
    split; [apply Hrun; rewrite (Hmax Hdi); lia|].
    cbn [data len]. split; [|split; [lia|split; [lia|split]]].
    + assert (Hlh : length (if (0 <? start b) && (0 <? end_ b - start b)
                            then compacted h b else h) = length h).
      { destruct (_ && _); [apply length_compacted | reflexivity]. }
      rewrite readable_eq.
      * cbn [data arr off start end_]. rewrite <- Hlh, array_of_fresh.
        rewrite Z.sub_0_r. apply sub_app_l. lia.
      * unfold slice_ok. simpl. lia.
      * unfold buf_inv. simpl. lia.
    + intros H0. rewrite (Hmax Hdi). lia.
    + intros s (_ & _ & Has) Heq. cbn [arr] in Heq.
      rewrite Heq in Has. lia.
Qed.

Lemma grow_steps_witness :
  let h := [[x61; x62; x63; x64]] in
  let b := mkBuffer (Slice (Some 0%nat) 0 4 4) 2 4 true in
  buf_wf h b /\ 0 < 2 /\ 0 < 3 /\
  Len b + 3 <= maxAlloc /\ 2 * Cap b <= maxAlloc /\
  grow_run h b 2 =
    ([[x63; x64; x63; x64]], mkBuffer (Slice (Some 0%nat) 0 4 4) 0 2 true,
     Ok tt) /\
  grow_run h b 3 =
    ([[x63; x64; x63; x64];
      [x63; x64; x00; x00; x00; x00; x00; x00]],
     mkBuffer (Slice (Some 1%nat) 0 8 8) 0 2 false, Ok tt).
Proof.
  intros h b.
  assert (Hb : buf_wf h b).
  { unfold buf_wf, slice_wf, slice_ok, buf_inv, int_max. simpl. lia. }
  split; [exact Hb|]. split; [lia|]. split; [lia|].
  split; [vm_compute; congruence|]. split; [vm_compute; congruence|]. split.
  - apply (grow_steps h b 2 Hb); vm_compute; congruence.
  - apply (grow_steps h b 3 Hb); try (vm_compute; congruence).
    vm_compute. intros (_ & _ & H). apply H. reflexivity.
Defined.

(** C2. [grow] where it leaves its contract ("grow ensures there is at
    least n more bytes of free space for writing"): a full one-byte buffer
    and [n] the largest [int].  [Len + n] wraps around to the smallest
    [int], so the capacity computed is twice the old one, 2.  [grow]
    returns normally with a two-byte array: less than the [Len + n] bytes
    that the claim promises, and with one free byte where [n] were asked
    for. *)
Lemma grow_wraps_around :
  let h := [[x61]] in
  let b := mkBuffer (Slice (Some 0%nat) 0 1 1) 0 1 false in
  buf_wf h b /\ 0 < int_max /\ Cap b - end_ b < int_max /\
  exists h' b',
    grow_run h b int_max = (h', b', Ok tt) /\
    grow h b int_max = Ok (h', b') /\
    Cap b' = 2 /\ start b' = 0 /\ end_ b' = 1 /\
    ~ (Len b + int_max <= Cap b') /\
    ~ (int_max <= Cap b' - end_ b').
Proof.
  intros h b. split.
  { unfold buf_wf, slice_wf, slice_ok, buf_inv, int_max. simpl. lia. }
  split; [reflexivity|]. split; [reflexivity|].
  eexists _, _. split; [vm_compute; reflexivity|].
  split; [vm_compute; reflexivity|].
  split; [reflexivity|]. split; [reflexivity|]. split; [reflexivity|].
  split; vm_compute; intros H; apply H; reflexivity.
Qed.



(** X20. Every buffer that a chain of normally returning calls of the
    exported operations ([New], [NewSize], [FromBytes], [Write],
    [WriteByte], [Extend], [Read], [ReadByte], [ReadBytes], [To], [Reset],
    [Release]) produces satisfies [0 <= start <= end <= len(data)]; hence
    the readable region [data[start:end]] and the free region [data[end:]]
    are well defined.  The proof is by induction on how the buffer was
    produced: each operation that returns keeps the invariant. *)
Theorem buffer_invariant b :
  reachable b ->
  (0 <= start b <= end_ b /\ end_ b <= len (data b)) /\
  (exists r, Bytes b = Ok r /\ len r = end_ b - start b) /\
  (exists f, reslice (data b) (end_ b) (len (data b)) = Ok f /\
             len f = len (data b) - end_ b).
Proof.
  intros Hr. destruct (reachable_hdr b Hr) as ([Hs He] & Hlc & Hli).
  split; [split; assumption|]. split.
  - eexists. unfold Bytes. rewrite reslice_ok by lia.
    split; reflexivity.
  - eexists. rewrite reslice_ok by lia. split; reflexivity.
Qed.

Lemma buffer_invariant_witness :
  let b := mkBuffer (Slice (Some 0%nat) 0 4 4) 0 1 true in
  reachable b /\
  (0 <= start b <= end_ b /\ end_ b <= len (data b)) /\
  (exists r, Bytes b = Ok r /\ len r = end_ b - start b) /\
  (exists f, reslice (data b) (end_ b) (len (data b)) = Ok f /\
             len f = len (data b) - end_ b).
Proof.
  intros b.
  assert (Hr : reachable b).
  { eapply (R_WriteByte (mkBuffer (Slice (Some 0%nat) 0 4 4) 0 0 true)
              [[x00; x00; x00; x00]] x61).
    - eapply (R_NewSize 0 NewAllocator [] 4).
      + unfold is_int, int_min, int_max. lia.
      + reflexivity.
    - reflexivity. }
  split; [exact Hr|]. exact (buffer_invariant b Hr).
Defined.

(** C9. The invariant is lost where [Extend] panics.  [FromBytes] of a
    one-byte slice is a buffer of the package and satisfies the invariant.
    [Extend] on it with the largest [int] calls [grow], which returns with
    a two-byte array (its capacity computation wraps around); [Extend]
    then stores [end = 1 + n], which wraps around to the smallest [int],
    and only after that panics on the slice expression.  The buffer that
    the call leaves, and that a caller recovering from the panic holds,
    has [end < start]: its readable region is not defined. *)
Lemma Extend_leaves_wrapped_end :
  let h := [[x61]] in
  let s := Slice (Some 0%nat) 0 1 1 in
  slice_wf h s /\ reachable (FromBytes s) /\ buf_inv (FromBytes s) /\
  exists h' b' m,
    Extend_run h (FromBytes s) int_max = (h', b', Panic m) /\
    Extend h (FromBytes s) int_max = Panic m /\
    len (data b') = 2 /\ start b' = 0 /\ end_ b' = int_min /\
    ~ buf_inv b' /\ Bytes b' = Panic m.
Proof.
  intros h s.
  assert (Hs : slice_wf h s).
  { unfold slice_wf, slice_ok, int_max. simpl. lia. }
  split; [exact Hs|]. split; [apply R_FromBytes, Hs|].
  split; [unfold buf_inv; simpl; lia|].
  eexists _, _, _. split; [vm_compute; reflexivity|].
  split; [vm_compute; reflexivity|].
  split; [reflexivity|]. split; [reflexivity|]. split; [reflexivity|].
  split; [|vm_compute; reflexivity].
  unfold buf_inv, int_min. simpl. lia.
Qed.

End BufferClaims.

(** ** More about the allocator *)

Section AllocMore.

Import alloc.

(** X1. [msb] is the floor of the binary logarithm: for a positive [int]
    it is the [k] in [0, 62] with [2^k <= size < 2^(k+1)]; for a size that
    is not positive it is 0. *)
Theorem msb_floor_log2 (size : Z) :
  (size <= 0 -> msb size = 0) /\
  (0 < size <= int_max ->
   0 <= msb size <= 62 /\ 2 ^ msb size <= size < 2 ^ (msb size + 1)).
Proof.
  split.
  - intros Hs. unfold msb. destruct (size <=? 0) eqn:E; [reflexivity | lia].
  - intros Hs. rewrite msb_log2 by exact Hs.
    destruct (Z.log2_spec size ltac:(lia)) as [Hlo Hhi].
    rewrite <- Z.add_1_r in Hhi.
    split; [|split; assumption].
    split; [apply Z.log2_nonneg|].
    change 62 with (Z.log2 int_max). apply Z.log2_le_mono. lia.
Qed.

Lemma msb_floor_log2_witness :
  0 < 1000 <= int_max /\
  0 <= msb 1000 <= 62 /\ 2 ^ msb 1000 <= 1000 < 2 ^ (msb 1000 + 1).
Proof.
  assert (H : 0 < 1000 <= int_max) by (unfold int_max; lia).
  split; [exact H|]. apply (msb_floor_log2 1000), H.
Defined.

(** X2. A region that [Get] returns for a size in [1, 65536] is at most
    65536 bytes and less than twice the size asked for. *)
Theorem Get_wastes_less_than_half
    (pick : nat) (a : Allocator) (h : heap) (s : Z) :
  alloc_inv a -> 1 <= s <= 65536 ->
  exists a' h' r,
    Allocator_Get pick a h s = Ok (a', h', r) /\
    s <= cap r /\ cap r < 2 * s /\ cap r <= 65536.
Proof.
  intros Ha Hs.
  destruct (Allocator_Get_in_range pick a h s Ha Hs)
    as (a' & h' & r & Hget & _ & _ & Hsm & _ &
        i & p0 & p1 & buf & _ & _ & -> & Hcap & Hi & _).
  exists a', h', (Slice (arr buf) (off buf) s (cap buf)).
  split; [exact Hget|]. cbn [cap] in *.
  split; [apply Hsm|]. split.
  - apply smallest_pow2_ge_lt_double; [lia | exact Hsm].
  - rewrite Hcap. change 65536 with (2 ^ 16). apply Z.pow_le_mono_r; lia.
Qed.

Lemma Get_wastes_less_than_half_witness :
  alloc_inv NewAllocator /\ 1 <= 1025 <= 65536 /\
  exists a' h' r,
    Allocator_Get 0 NewAllocator [] 1025 = Ok (a', h', r) /\
    1025 <= cap r /\ cap r < 2 * 1025 /\ cap r <= 65536.
Proof.
  split; [exact NewAllocator_inv|]. split; [lia|].
  apply (Get_wastes_less_than_half 0 NewAllocator [] 1025 NewAllocator_inv).
  lia.
Defined.

(** X3. The shape of the allocator (17 pools, pool [i] making and holding
    non-nil slices of length and capacity [2^i]) is an invariant:
    [NewAllocator] has it, and from a state that has it [Get] and [Put]
    return normally for every argument and keep it.  A [Get] that cannot
    be served and a [Put] that reports an error leave the allocator (and
    the heap) exactly as they were. *)
Theorem alloc_inv_kept (a : Allocator) :
  alloc_inv a ->
  (forall pick h s,
     exists a' h' r,
       Allocator_Get pick a h s = Ok (a', h', r) /\ alloc_inv a' /\
       (s <= 0 \/ s > 65536 -> a' = a /\ h' = h /\ r = nil_slice)) /\
  (forall buf,
     exists a' e,
       Allocator_Put a buf = Ok (a', e) /\ alloc_inv a' /\
       (e <> None -> a' = a)).
Proof.
  intros Ha. split.
  - intros pick h s.
    destruct (Z_le_gt_dec s 0) as [H0|H0];
      [|destruct (Z_le_gt_dec s 65536) as [H1|H1]].
    + exists a, h, nil_slice. unfold Allocator_Get, MaxSize.
      destruct ((s <=? 0) || (s >? 65536)) eqn:E; [|lia].
      split; [reflexivity|]. split; [exact Ha|]. intros _. repeat split.
    + destruct (Allocator_Get_in_range pick a h s Ha ltac:(lia))
        as (a' & h' & r & Hget & _ & _ & _ & Ha' & _).
      exists a', h', r. split; [exact Hget|]. split; [exact Ha'|]. lia.
    + exists a, h, nil_slice. unfold Allocator_Get, MaxSize.
      destruct ((s <=? 0) || (s >? 65536)) eqn:E; [|lia].
      split; [reflexivity|]. split; [exact Ha|]. intros _. repeat split.
  - intros buf. apply Allocator_Put_total, Ha.
Qed.

Lemma alloc_inv_kept_witness :
  alloc_inv NewAllocator /\
  (exists a' h' r,
     Allocator_Get 0 NewAllocator [] 70000 = Ok (a', h', r) /\
     alloc_inv a' /\ a' = NewAllocator) /\
  (exists a' e,
     Allocator_Put NewAllocator (Slice (Some 0%nat) 0 0 8) = Ok (a', e) /\
     alloc_inv a').
Proof.
  split; [exact NewAllocator_inv|].
  destruct (alloc_inv_kept NewAllocator NewAllocator_inv) as [HG HP]. split.
  - destruct (HG 0%nat [] 70000) as (a' & h' & r & Hg & Ha' & Hsame).
    exists a', h', r. split; [exact Hg|]. split; [exact Ha'|].
    apply Hsame. right. lia.
  - destruct (HP (Slice (Some 0%nat) 0 0 8)) as (a' & e & Hp & Ha' & _).
    exists a', e. split; assumption.
Defined.

(** X4. Reuse.  After [Put] has accepted a region, a [Get] for a size of
    the same class that is served from the most recent entry of the pool
    returns that very region (same array, same offset, same capacity, not
    cleared), cut to the size asked for; nothing is allocated and the
    allocator is back in the state before the [Put]. *)
Theorem Put_then_Get_reuses (a : Allocator) (buf : slice) (s : Z) (h : heap) :
  alloc_inv a -> is_nil buf = false -> 1 <= s -> cap buf <= 65536 ->
  smallest_pow2_ge (cap buf) s ->
  exists a',
    Allocator_Put a buf = Ok (a', None) /\
    Allocator_Get 0 a' h s =
      Ok (a, h, Slice (arr buf) (off buf) s (cap buf)) /\
    bytes_of h (Slice (arr buf) (off buf) s (cap buf)) =
      sub (array_of h buf) (off buf) s.
Proof.
  intros Ha Hn Hs Hmax Hsm.
  destruct (Put_Get_reuse a buf s h Ha Hn Hs Hmax Hsm) as (a' & Hp & _ & Hg).
  exists a'. split; [exact Hp|]. split; [exact Hg | reflexivity].
Qed.

Lemma Put_then_Get_reuses_witness :
  let buf := Slice (Some 0%nat) 0 1 4 in
  let h := [[x61; x62; x63; x64]] in
  alloc_inv NewAllocator /\ is_nil buf = false /\ 1 <= 3 /\
  cap buf <= 65536 /\ smallest_pow2_ge (cap buf) 3 /\
  exists a',
    Allocator_Put NewAllocator buf = Ok (a', None) /\
    Allocator_Get 0 a' h 3 = Ok (NewAllocator, h, Slice (Some 0%nat) 0 3 4) /\
    bytes_of h (Slice (Some 0%nat) 0 3 4) = [x61; x62; x63].
Proof.
  intros buf h.
  assert (Hsm : smallest_pow2_ge (cap buf) 3).
  { split; [exists 2; split; [lia | reflexivity]|]. split; [simpl; lia|].
    intros j Hj Hle. simpl.
    destruct (Z_lt_le_dec j 2) as [Hlt|Hge].
    - assert (2 ^ j <= 2 ^ 1) by (apply Z.pow_le_mono_r; lia).
      change (2 ^ 1) with 2 in *. lia.
    - change 4 with (2 ^ 2). apply Z.pow_le_mono_r; lia. }
  split; [exact NewAllocator_inv|]. split; [reflexivity|]. split; [lia|].
  split; [simpl; lia|]. split; [exact Hsm|].
  exact (Put_then_Get_reuses NewAllocator buf 3 h NewAllocator_inv
           eq_refl ltac:(lia) ltac:(simpl; lia) Hsm).
Defined.

(** X5. Whatever [Get] hands out for a size in [1, 65536], [Put] takes
    back without error, and the allocator keeps its shape. *)
Theorem Get_then_Put_accepted
    (pick : nat) (a : Allocator) (h : heap) (s : Z) :
  alloc_inv a -> 1 <= s <= 65536 ->
  exists a1 h1 r a2,
    Allocator_Get pick a h s = Ok (a1, h1, r) /\
    Allocator_Put a1 r = Ok (a2, None) /\ alloc_inv a2.
Proof.
  intros Ha Hs.
  destruct (Allocator_Get_in_range pick a h s Ha Hs)
    as (a1 & h1 & r & Hget & Hnil & _ & (Hpow & Hle & _) & Ha1 &
        i0 & p0 & p1 & buf & _ & _ & Hr & Hcap & Hi & _).
  assert (Hc16 : cap r <= 65536).
  { rewrite Hr. cbn [cap]. rewrite Hcap. change 65536 with (2 ^ 16).
    apply Z.pow_le_mono_r; lia. }
  destruct (Allocator_Put_cases a1 r Ha1)
    as [([?|[?|[?|Hnp]]] & _) | (_ & _ & _ & i & p & _ & _ & _ & Hput)];
    [congruence | lia | lia | exact (False_ind _ (Hnp Hpow)) |].
  destruct (Allocator_Put_total a1 r Ha1) as (a2 & e & Hput' & Ha2 & _).
  rewrite Hput in Hput'. injection Hput' as Ea2 Ee. subst e.
  exists a1, h1, r, a2. split; [exact Hget|].
  split; [rewrite Hput, Ea2; reflexivity | exact Ha2].
Qed.

Lemma Get_then_Put_accepted_witness :
  alloc_inv NewAllocator /\ 1 <= 100 <= 65536 /\
  exists a1 h1 r a2,
    Allocator_Get 0 NewAllocator [] 100 = Ok (a1, h1, r) /\
    Allocator_Put a1 r = Ok (a2, None) /\ alloc_inv a2.
Proof.
  split; [exact NewAllocator_inv|]. split; [lia|].
  apply (Get_then_Put_accepted 0 NewAllocator [] 100 NewAllocator_inv). lia.
Defined.

(** X6. When the pool of the class has no cached entry to hand out (as in
    a new allocator), [Get] allocates: the region is a fresh array of the
    class size, every byte of it is zero, and the allocator is unchanged. *)
Theorem Get_fresh_is_zeroed
    (pick : nat) (a : Allocator) (h : heap) (s : Z) :
  alloc_inv a -> 1 <= s <= 65536 ->
  (forall (i : nat) (p : Pool),
     buffers a !! i = Some p -> items p !! pick = None) ->
  exists c,
    smallest_pow2_ge c s /\
    Allocator_Get pick a h s =
      Ok (a, h ++ [replicate (Z.to_nat c) x00],
          Slice (Some (length h)) 0 s c) /\
    bytes_of (h ++ [replicate (Z.to_nat c) x00])
             (Slice (Some (length h)) 0 s c)
      = replicate (Z.to_nat s) x00.
Proof.
  intros Ha Hs Hempty.
  destruct (Allocator_Get_in_range pick a h s Ha Hs)
    as (a' & h' & r & Hget & _ & _ & Hsm & _ &
        i & p & p' & buf & Hp & -> & -> & Hcap & Hi & Hcase).
  cbn [cap] in Hsm.
  destruct Hcase as [(_ & Hpick & _) | (Eh & Eb & Ep & _)].
  { rewrite (Hempty i p Hp) in Hpick. discriminate Hpick. }
  subst h' buf p'. cbn [cap arr off] in *. exists (2 ^ Z.of_nat i).
  split; [exact Hsm|]. split.
  - rewrite Hget, list_insert_id by exact Hp. destruct a. reflexivity.
  - unfold bytes_of. rewrite array_of_fresh. cbn [off len].
    unfold sub. simpl. rewrite drop_0, take_replicate. f_equal.
    destruct Hsm as (_ & Hle & _). lia.
Qed.

Lemma Get_fresh_is_zeroed_witness :
  alloc_inv NewAllocator /\ 1 <= 3 <= 65536 /\
  exists c,
    smallest_pow2_ge c 3 /\
    Allocator_Get 0 NewAllocator [] 3 =
      Ok (NewAllocator, [] ++ [replicate (Z.to_nat c) x00],
          Slice (Some 0%nat) 0 3 c) /\
    bytes_of ([] ++ [replicate (Z.to_nat c) x00]) (Slice (Some 0%nat) 0 3 c)
      = [x00; x00; x00].
Proof.
  split; [exact NewAllocator_inv|]. split; [lia|].
  apply (Get_fresh_is_zeroed 0 NewAllocator [] 3 NewAllocator_inv); [lia|].
  intros i p Hp.
  assert (Hi : (i < 17)%nat) by (apply lookup_lt_Some in Hp; exact Hp).
  do 17 (destruct i as [|i]; [inversion Hp; reflexivity|]). lia.
Defined.

End AllocMore.

(** ** More about the buffer *)

Section BufferMore.

Import alloc buffer.

Implicit Types (h : heap) (b : Buffer) (s p d : slice).

(** X7. [grow] keeps its promise within the run time's allocation limit:
    for [n > 0] with neither [Len + n] nor twice the capacity above
    [maxAlloc] it returns, there are then at least [n] free bytes after
    [end], and the readable content and its length are what they were.  The
    storage is either the old slice, with ownership unchanged, or a fresh
    array that is not pool-owned. *)
Theorem grow_ensures_room h b (n : Z) :
  buf_wf h b -> 0 < n ->
  Len b + n <= maxAlloc -> 2 * Cap b <= maxAlloc ->
  exists h' b',
    grow_run h b n = (h', b', Ok tt) /\
    buf_wf h' b' /\
    n <= Cap b' - end_ b' /\
    readable h' b' = readable h b /\ Len b' = Len b /\
    ((data b' = data b /\ pooled b' = pooled b) \/
     (arr (data b') = Some (length h) /\ pooled b' = false)).
Proof.
  intros Hb Hn. pose proof Hb as [(Hok & _) Hinv].
  pose proof maxAlloc_int as [_ Hmi].
  rewrite (Len_eq b Hok Hinv). unfold Cap at 1. intros Hlim Hdbl.
  assert (Hov : end_ b - start b + n <= int_max) by lia.
  destruct (grow_post h b n Hb Hn Hov)
    as (h' & b' & Hg & Hb' & Hr & Hfree & HL & _).
  destruct (grow_storage h b n h' b' Hb Hn Hov Hg) as (_ & Hwhere & _ & _).
  pose proof (grow_within_limit h b n h' b' Hb ltac:(lia) Hlim Hdbl Hg)
    as Hcap.
  exists h', b'. split; [exact (grow_agree _ _ _ _ _ Hg Hcap)|].
  split; [exact Hb'|].
  split; [exact Hfree|]. split; [exact Hr|]. split.
  - pose proof Hb' as [(Hok' & _) Hinv'].
    rewrite (Len_eq b' Hok' Hinv'). exact HL.
  - destruct Hwhere as [(? & ? & _) | ?]; [left; split; assumption | right].
    assumption.
Qed.

Lemma grow_ensures_room_witness :
  let h := [[x61; x62; x63; x64]] in
  let b := mkBuffer (Slice (Some 0%nat) 0 4 4) 1 4 true in
  buf_wf h b /\ 0 < 100 /\ Len b + 100 <= maxAlloc /\
  2 * Cap b <= maxAlloc /\
  exists h' b',
    grow_run h b 100 = (h', b', Ok tt) /\ buf_wf h' b' /\
    100 <= Cap b' - end_ b' /\
    readable h' b' = [x62; x63; x64] /\ Len b' = 3 /\
    ((data b' = data b /\ pooled b' = pooled b) \/
     (arr (data b') = Some 1%nat /\ pooled b' = false)).
Proof.
  intros h b.
  assert (Hb : buf_wf h b).
  { unfold buf_wf, slice_wf, slice_ok, buf_inv, int_max. simpl. lia. }
  split; [exact Hb|]. split; [lia|]. split; [vm_compute; congruence|].
  split; [vm_compute; congruence|].
  apply (grow_ensures_room h b 100 Hb); [lia | |]; vm_compute; congruence.
Defined.

(** X8. [Extend(n)] for [n >= 0] within the run time's allocation limit
    (neither [Len + n] nor twice the capacity above [maxAlloc]): the call
    returns, the length grows by exactly [n]; the slice returned has
    length [n] and is the part of the storage right after the old content,
    so that the readable content is the old content followed by the bytes
    of that slice, and whatever the caller stores there is what is read
    after the old content. *)
Theorem Extend_contract h b (n : Z) :
  buf_wf h b -> 0 <= n ->
  Len b + n <= maxAlloc -> 2 * Cap b <= maxAlloc ->
  exists h' b' r,
    Extend_run h b n = (h', b', Ok r) /\
    buf_wf h' b' /\ len r = n /\ arr r = arr (data b') /\
    Len b' = Len b + n /\
    readable h' b' = readable h b ++ bytes_of h' r /\
    forall v : list byte, Z.of_nat (length v) = n ->
      buf_wf (store h' r v) b' /\
      readable (store h' r v) b' = readable h b ++ v.
Proof.
  intros Hb Hn. pose proof Hb as [(Hok & _) Hinv].
  pose proof maxAlloc_int as [_ Hmi].
  rewrite (Len_eq b Hok Hinv). unfold Cap. intros Hlim Hdbl.
  assert (Hov : end_ b - start b + n <= int_max) by lia.
  destruct (grow_post0 h b n Hb Hn Hov)
    as (h1 & b1 & Hg & Hb1 & Hr1 & Hfree & HL & _).
  pose proof (grow_within_limit h b n h1 b1 Hb Hn Hlim Hdbl Hg) as Hcap.
  pose proof Hb1 as [Hwf1 Hinv1].
  pose proof Hwf1 as ((Ho & Hl & Hc) & Hlen & Ha).
  pose proof Hinv1 as (Hs & He).
  assert (HE : exists r,
            Extend h b n
            = Ok (h1, mkBuffer (data b1) (start b1) (end_ b1 + n) (pooled b1),
                  r) /\
            r = Slice (arr (data b1)) (off (data b1) + end_ b1) n
                      (cap (data b1) - end_ b1)).
  { unfold Extend. destruct (n <? 0) eqn:E0; [lia|]. clear E0.
    rewrite Hg. cbn [mbind result_bind]. cbv zeta. cbn [data end_].
    assert (Hadd : int_add (end_ b1) n = end_ b1 + n).
    { apply wrap_id. int_consts. lia. }
    rewrite Hadd, reslice_ok by lia. cbn [mbind result_bind].
    replace (end_ b1 + n - end_ b1) with n by lia.
    eexists. split; reflexivity. }
  destruct HE as (r0 & HE & Hr0).
  assert (Hsplit :
            sub (array_of h1 (data b1)) (off (data b1) + start b1)
                (end_ b1 + n - start b1)
            = sub (array_of h1 (data b1)) (off (data b1) + start b1)
                  (end_ b1 - start b1)
              ++ sub (array_of h1 (data b1)) (off (data b1) + end_ b1) n).
  { replace (end_ b1 + n - start b1) with ((end_ b1 - start b1) + n) by lia.
    rewrite sub_app_split by lia.
    replace (off (data b1) + start b1 + (end_ b1 - start b1))
      with (off (data b1) + end_ b1) by lia.
    reflexivity. }
  set (r := Slice (arr (data b1)) (off (data b1) + end_ b1) n
                  (cap (data b1) - end_ b1)) in *.
  set (b2 := mkBuffer (data b1) (start b1) (end_ b1 + n) (pooled b1)) in *.
  subst r0.
  assert (Hinv2 : buf_inv b2) by (unfold buf_inv, b2; simpl; lia).
  assert (Hok1 : slice_ok (data b1)) by apply Hwf1.
  assert (Hok2 : slice_ok (data b2)) by exact Hok1.
  assert (Hb2 : buf_wf h1 b2) by (split; assumption).
  exists h1, b2, r. split; [exact (Extend_agree _ _ _ _ _ _ HE Hcap)|].
  split; [exact Hb2|].
  split; [reflexivity|]. split; [reflexivity|]. split.
  { rewrite (Len_eq b2) by assumption. unfold b2. simpl. lia. }
  split.
  - rewrite <- Hr1. rewrite (readable_eq h1 b2), (readable_eq h1 b1)
      by assumption.
    unfold bytes_of. rewrite (array_of_arr h1 r (data b1)) by reflexivity.
    unfold b2, r. cbn [data start end_ arr off len]. exact Hsplit.
  - intros v Hv.
    destruct (append_at_end h1 b1 v n (cap (data b1) - end_ b1))
      as (Hb3 & Hr3 & _); try assumption; try lia.
    rewrite Hv in Hb3, Hr3. fold r b2 in Hb3, Hr3.
    split; [exact Hb3 | rewrite Hr3, Hr1; reflexivity].
Qed.

Lemma Extend_contract_witness :
  let h := [[x61; x62]] in
  let b := mkBuffer (Slice (Some 0%nat) 0 2 2) 0 2 true in
  buf_wf h b /\ 0 <= 3 /\ Len b + 3 <= maxAlloc /\ 2 * Cap b <= maxAlloc /\
  exists h' b' r,
    Extend_run h b 3 = (h', b', Ok r) /\ len r = 3 /\ Len b' = 5 /\
    readable (store h' r [x63; x64; x65]) b' = [x61; x62; x63; x64; x65].
Proof.
  intros h b.
  assert (Hb : buf_wf h b).
  { unfold buf_wf, slice_wf, slice_ok, buf_inv, int_max. simpl. lia. }
  split; [exact Hb|]. split; [lia|]. split; [vm_compute; congruence|].
  split; [vm_compute; congruence|].
  destruct (Extend_contract h b 3 Hb ltac:(lia) ltac:(vm_compute; congruence)
              ltac:(vm_compute; congruence))
    as (h' & b' & r & HE & _ & Hl & _ & HL & _ & Hv).
  exists h', b', r. split; [exact HE|]. split; [exact Hl|].
  split; [exact HL|]. apply (Hv [x63; x64; x65]). reflexivity.
Defined.

(** X9. [To(n)] does not consume: for [n <= 0] it gives nil; otherwise a
    slice into the storage of the buffer, starting at the read cursor, of
    length [min(n, Len)], whose bytes are the first [n] readable bytes,
    all of them when [n] exceeds the length. *)
Theorem To_is_a_prefix_view h b (n : Z) :
  buf_wf h b ->
  (n <= 0 -> To b n = Ok nil_slice) /\
  (0 < n ->
   exists r,
     To b n = Ok r /\
     arr r = arr (data b) /\ off r = off (data b) + start b /\
     len r = Z.min n (Len b) /\
     bytes_of h r = take (Z.to_nat n) (readable h b)).
Proof.
  intros Hb. pose proof Hb as [Hwf Hinv].
  pose proof Hwf as (Hok & Hlen & Ha).
  pose proof Hok as (Ho & Hl & Hc). pose proof Hinv as (Hs & He).
  pose proof (Len_eq b Hok Hinv) as HL.
  unfold To. rewrite HL. split.
  - intros Hn. destruct (n <=? 0) eqn:E; [reflexivity | lia].
  - intros Hn. destruct (n <=? 0) eqn:E; [lia|]. clear E.
    set (m := if n >? end_ b - start b then end_ b - start b else n).
    assert (Hm : m = Z.min n (end_ b - start b)).
    { subst m. destruct (n >? end_ b - start b) eqn:E; lia. }
    clearbody m. subst m.
    assert (Hadd : int_add (start b) (Z.min n (end_ b - start b))
                   = start b + Z.min n (end_ b - start b)).
    { apply wrap_id. int_consts. lia. }
    rewrite Hadd, reslice_ok by lia.
    eexists. split; [reflexivity|]. cbn [arr off len].
    split; [reflexivity|]. split; [reflexivity|]. split; [lia|].
    unfold bytes_of. cbn [off len].
    rewrite (array_of_arr _ _ (data b)) by reflexivity.
    rewrite readable_eq by assumption. unfold sub.
    rewrite take_take. f_equal. lia.
Qed.

Lemma To_is_a_prefix_view_witness :
  let h := [[x68; x65; x6c; x6c; x6f]] in
  let b := FromBytes (Slice (Some 0%nat) 0 5 5) in
  buf_wf h b /\ 0 < 2 /\ 0 < 10 /\
  (exists r, To b 2 = Ok r /\ bytes_of h r = [x68; x65]) /\
  (exists r, To b 10 = Ok r /\ bytes_of h r = [x68; x65; x6c; x6c; x6f]).
Proof.
  intros h b.
  assert (Hb : buf_wf h b).
  { unfold buf_wf, slice_wf, slice_ok, buf_inv, int_max. simpl. lia. }
  split; [exact Hb|]. split; [lia|]. split; [lia|].
  destruct (To_is_a_prefix_view h b 2 Hb) as [_ H2].
  destruct (To_is_a_prefix_view h b 10 Hb) as [_ H10].
  split.
  - destruct (H2 ltac:(lia)) as (r & Hr & _ & _ & _ & Hbytes).
    exists r. split; [exact Hr | exact Hbytes].
  - destruct (H10 ltac:(lia)) as (r & Hr & _ & _ & _ & Hbytes).
    exists r. split; [exact Hr | exact Hbytes].
Defined.

(** X10. [Read] delivers the content in order.  On an empty buffer it
    returns 0 and [io.EOF] and changes nothing.  Otherwise it returns
    [min(len(dest), Len)] without error, the destination begins with that
    many bytes from the front of the readable content, and what stays
    readable is the rest (the destination being no part of the storage of
    the buffer). *)
Theorem Read_in_order h b d :
  buf_wf h b -> slice_wf h d -> arr d <> arr (data b) ->
  (Len b = 0 -> Read h b d = Ok (h, b, 0, Some EOF)) /\
  (0 < Len b ->
   let n := Z.min (len d) (Len b) in
   exists h' b',
     Read h b d = Ok (h', b', n, None) /\
     buf_wf h' b' /\ Len b' = Len b - n /\
     sub (bytes_of h' d) 0 n = take (Z.to_nat n) (readable h b) /\
     readable h' b' = drop (Z.to_nat n) (readable h b) /\
     (Len b <= len d -> b' = mkBuffer (data b) 0 0 (pooled b))).
Proof.
  intros Hb Hd Hne. pose proof Hb as [Hwf Hinv].
  pose proof Hwf as (Hok & _). pose proof Hinv as (Hs & He).
  pose proof (length_readable h b Hb) as Hrl.
  pose proof Hd as ((Hdo & Hdl & Hdc) & _).
  rewrite (Len_eq b Hok Hinv). split.
  - intros HL. unfold Read, IsEmpty. rewrite (Len_eq b Hok Hinv), HL.
    reflexivity.
  - intros HL. cbv zeta.
    destruct (Read_spec h b d Hb Hd HL) as (h' & HR & Hsub & _ & ->).
    set (n := Z.min (len d) (end_ b - start b)) in *.
    assert (Hn : 0 <= n <= end_ b - start b) by (subst n; lia).
    destruct (consumed_wf h b n Hb Hn) as [Hb' Hr'].
    assert (Hvl : Z.of_nat (length (sub (readable h b) 0 n)) <= cap d).
    { rewrite length_sub by lia. subst n. lia. }
    exists (store h d (sub (readable h b) 0 n)), (consumed b (start b + n)).
    split; [exact HR|].
    assert (Hdata : data (consumed b (start b + n)) = data b).
    { unfold consumed. destruct (_ =? _); reflexivity. }
    split; [|split; [|split; [|split]]].
    + split; [|apply Hb'].
      apply slice_wf_store; [exact Hd | exact Hvl | apply Hb'].
    + pose proof Hb' as [(Hok' & _) Hinv'].
      rewrite (Len_eq _ Hok' Hinv').
      pose proof (length_readable h _ Hb') as Hl'.
      rewrite Hr', length_drop, Hrl in Hl'.
      destruct Hinv' as [? ?]. lia.
    + rewrite Hsub. unfold sub. simpl. rewrite drop_0. reflexivity.
    + rewrite readable_store_other; [exact Hr' | exact Hd | exact Hvl |].
      rewrite Hdata. congruence.
    + intros Hall. replace (start b + n) with (end_ b) by (subst n; lia).
      apply consumed_all.
Qed.

Lemma Read_in_order_witness :
  let h := [[x61; x62; x63]; [x00; x00]] in
  let b := FromBytes (Slice (Some 0%nat) 0 3 3) in
  let d := Slice (Some 1%nat) 0 2 2 in
  buf_wf h b /\ slice_wf h d /\ arr d <> arr (data b) /\ 0 < Len b /\
  exists h' b',
    Read h b d = Ok (h', b', 2, None) /\
    sub (bytes_of h' d) 0 2 = [x61; x62] /\ readable h' b' = [x63].
Proof.
  intros h b d.
  assert (Hb : buf_wf h b).
  { unfold buf_wf, slice_wf, slice_ok, buf_inv, int_max. simpl. lia. }
  assert (Hd : slice_wf h d).
  { unfold slice_wf, slice_ok, int_max. simpl. lia. }
  assert (Hne : arr d <> arr (data b)) by discriminate.
  split; [exact Hb|]. split; [exact Hd|]. split; [exact Hne|].
  split; [reflexivity|].
  destruct (Read_in_order h b d Hb Hd Hne) as [_ H].
  destruct (H eq_refl) as (h' & b' & HR & _ & _ & Hsub & Hrest & _).
  exists h', b'. split; [exact HR|]. split; [exact Hsub | exact Hrest].
Defined.

(** X11. [ReadByte] on an empty buffer returns [io.EOF] and changes
    nothing; otherwise it returns the first readable byte without error
    and the rest of the content stays readable, in the same storage. *)
Theorem ReadByte_next h b :
  buf_wf h b ->
  (Len b = 0 -> ReadByte h b = Ok (b, x00, Some EOF)) /\
  (forall c rest, readable h b = c :: rest ->
     exists b',
       ReadByte h b = Ok (b', c, None) /\
       buf_wf h b' /\ readable h b' = rest /\ data b' = data b).
Proof.
  intros Hb. split.
  - intros HL. unfold ReadByte, IsEmpty. rewrite HL. reflexivity.
  - intros c rest Hr.
    destruct (ReadByte_spec h b c rest Hb Hr) as (b' & HR & Hb' & Hr').
    exists b'. split; [exact HR|]. split; [exact Hb'|]. split; [exact Hr'|].
    unfold ReadByte in HR. destruct (IsEmpty b); [discriminate|].
    destruct (index h (data b) (start b)); cbn [mbind result_bind] in HR;
      [|discriminate].
    injection HR as <- _. unfold consumed. destruct (_ =? _); reflexivity.
Qed.

Lemma ReadByte_next_witness :
  let h := [[x61; x62]] in
  let b := FromBytes (Slice (Some 0%nat) 0 2 2) in
  buf_wf h b /\ readable h b = [x61; x62] /\
  exists b', ReadByte h b = Ok (b', x61, None) /\ readable h b' = [x62].
Proof.
  intros h b.
  assert (Hb : buf_wf h b).
  { unfold buf_wf, slice_wf, slice_ok, buf_inv, int_max. simpl. lia. }
  split; [exact Hb|]. split; [reflexivity|].
  destruct (ReadByte_next h b Hb) as [_ H].
  destruct (H x61 [x62] eq_refl) as (b' & HR & _ & Hr & _).
  exists b'. split; [exact HR | exact Hr].
Defined.

(** X12. [ReadBytes(n)] with [0 <= n <= Len] consumes in order: the bytes
    returned followed by what stays readable are the content before the
    call, the length drops by [n], and the storage is the same. *)
Theorem ReadBytes_in_order h b (n : Z) :
  buf_wf h b -> 0 <= n <= Len b ->
  exists h' b' out,
    ReadBytes h b n = Ok (h', b', out, None) /\
    buf_wf h' b' /\ data b' = data b /\ Len b' = Len b - n /\
    bytes_of h' out ++ readable h' b' = readable h b.
Proof.
  intros Hb. pose proof Hb as [Hwf Hinv].
  pose proof Hwf as (Hok & _). pose proof Hinv as (Hs & He).
  pose proof (length_readable h b Hb) as Hrl.
  rewrite (Len_eq b Hok Hinv). intros Hn.
  destruct (consumed_wf h b n Hb Hn) as [Hb' Hr'].
  eexists _, _, _. split; [apply ReadBytes_ok; assumption|].
  split; [apply buf_wf_app, Hb'|]. split; [|split].
  - unfold consumed. destruct (_ =? _); reflexivity.
  - pose proof Hb' as [(Hok' & _) Hinv'].
    rewrite (Len_eq _ Hok' Hinv').
    pose proof (length_readable h _ Hb') as Hl'.
    rewrite Hr', length_drop, Hrl in Hl'.
    destruct Hinv' as [? ?]. lia.
  - rewrite readable_app by exact Hb'. rewrite Hr'.
    unfold bytes_of. rewrite array_of_fresh. cbn [off len].
    rewrite sub_0_all by (rewrite length_take; lia).
    apply take_drop.
Qed.

Lemma ReadBytes_in_order_witness :
  let h := [[x61; x62; x63; x64; x65; x66]] in
  let b := FromBytes (Slice (Some 0%nat) 0 6 6) in
  buf_wf h b /\ 0 <= 3 <= Len b /\
  exists h' b' out,
    ReadBytes h b 3 = Ok (h', b', out, None) /\
    Len b' = 3 /\
    bytes_of h' out ++ readable h' b' = [x61; x62; x63; x64; x65; x66].
Proof.
  intros h b.
  assert (Hb : buf_wf h b).
  { unfold buf_wf, slice_wf, slice_ok, buf_inv, int_max. simpl. lia. }
  assert (Hn : 0 <= 3 <= Len b) by (vm_compute; split; congruence).
  split; [exact Hb|]. split; [exact Hn|].
  destruct (ReadBytes_in_order h b 3 Hb Hn)
    as (h' & b' & out & HR & _ & _ & HL & Hcat).
  exists h', b', out. split; [exact HR|]. split; [exact HL | exact Hcat].
Defined.





(** X15. [Reset] keeps the storage: the buffer becomes empty with the
    same capacity and ownership, and a following [Write] of at most that
    many bytes goes into the same storage from offset 0, without any
    allocation; the content is then exactly the bytes written. *)
Theorem Reset_then_Write h b p :
  buf_wf h b -> slice_wf h p -> 0 < len p <= Cap b ->
  Len (Reset b) = 0 /\ Cap (Reset b) = Cap b /\
  pooled (Reset b) = pooled b /\
  exists h',
    Write h (Reset b) p =
      Ok (h', mkBuffer (data b) 0 (len p) (pooled b), len p, None) /\
    readable h' (mkBuffer (data b) 0 (len p) (pooled b)) = bytes_of h p /\
    length h' = length h.
Proof.
  intros Hb Hp. unfold Cap. intros Hn.
  pose proof (Reset_wf h b Hb) as Hrb.
  pose proof Hb as [Hwf Hinv]. pose proof Hwf as ((? & ? & ?) & _).
  split; [reflexivity|]. split; [reflexivity|]. split; [reflexivity|].
  destruct (Write_full h (Reset b) p Hrb Hp ltac:(lia))
    as (h' & b' & HW & Hb' & Hr & _ & _ & _ & Hroom & _).
  { simpl. lia. }
  { right. left. reflexivity. }
  destruct Hroom as [-> Hlen]; [simpl; lia|].
  simpl in HW, Hr, Hb'.
  assert (Hnil : readable h (Reset b) = []).
  { pose proof (length_readable h _ Hrb) as Hl. simpl in Hl.
    destruct (readable h (Reset b)); [reflexivity | simpl in Hl; lia]. }
  rewrite Hnil in Hr.
  exists h'. split; [exact HW|]. split; [exact Hr | exact Hlen].
Qed.

Lemma Reset_then_Write_witness :
  let h := [[x31; x32; x33; x34; x00; x00; x00; x00]; [x61; x62; x63; x64]] in
  let b := mkBuffer (Slice (Some 0%nat) 0 8 8) 0 4 true in
  let p := Slice (Some 1%nat) 0 4 4 in
  buf_wf h b /\ slice_wf h p /\ 0 < len p <= Cap b /\
  exists h',
    Write h (Reset b) p =
      Ok (h', mkBuffer (Slice (Some 0%nat) 0 8 8) 0 4 true, 4, None) /\
    readable h' (mkBuffer (Slice (Some 0%nat) 0 8 8) 0 4 true)
      = [x61; x62; x63; x64] /\
    length h' = 2%nat.
Proof.
  intros h b p.
  assert (Hb : buf_wf h b).
  { unfold buf_wf, slice_wf, slice_ok, buf_inv, int_max. simpl. lia. }
  assert (Hp : slice_wf h p).
  { unfold slice_wf, slice_ok, int_max. simpl. lia. }
  assert (Hn : 0 < len p <= Cap b) by (vm_compute; split; congruence).
  split; [exact Hb|]. split; [exact Hp|]. split; [exact Hn|].
  apply (Reset_then_Write h b p Hb Hp Hn).
Defined.



(** X17. A new buffer and a first [Write], for an initial size and a
    non-empty [p] within the run time's allocation limit (neither twice
    the size nor [len(p)] above [maxAlloc]): [NewSize] returns, the write
    returns [len(p)], the content is the bytes of
    [p], the length is [len(p)] and the capacity is at least that.  If [p]
    fits the initial size the storage obtained by [NewSize] is kept (it
    stays pool-owned exactly when the size is at most 65536) and nothing is
    allocated.  If it does not fit, the buffer moves to a fresh array that
    is not pool-owned, and a [Release] then gives nothing to the pool: the
    region that [NewSize] took from the pool is not returned. *)
Theorem NewSize_then_Write
    (pick : nat) (a : Allocator) h (size : Z) p :
  alloc_wf h a -> 2 * size <= maxAlloc -> slice_wf h p ->
  0 < len p <= maxAlloc ->
  exists a' h0 b h1 b1,
    NewSize pick a h size = Ok (a', h0, b) /\
    Write h0 b p = Ok (h1, b1, len p, None) /\
    readable h1 b1 = bytes_of h p /\ Len b1 = len p /\ len p <= Cap b1 /\
    (len p <= size ->
     data b1 = data b /\ length h1 = length h0 /\
     (pooled b1 = true <-> size <= 65536)) /\
    (size < len p ->
     arr (data b1) = Some (length h0) /\ pooled b1 = false /\
     Release a' (Some b1) = Ok (a', Some zero_Buffer)).
Proof.
  intros Haw Hsz2 Hp [Hn _].
  assert (Hsz : size <= maxAlloc) by (revert Hsz2; unfold maxAlloc; lia).
  destruct (NewSize_wf pick a h size Haw Hsz)
    as (a' & h0 & b & HN & Hb & HL & HCap & _ & Hfr & Hst & Hen & Hpool).
  destruct (Hfr p Hp) as [Hp0 Hbytes].
  pose proof Hp as ((Hpo & Hpl & Hpc) & _).
  unfold Cap in HCap.
  destruct (Write_full h0 b p Hb Hp0 Hn)
    as (h1 & b1 & HW & Hb1 & Hr & HL1 & _ & _ & Hroom & Hnew & _).
  { rewrite Hst, Hen. lia. }
  { right. left. exact Hst. }
  assert (Hnil : readable h0 b = []).
  { pose proof (length_readable h0 b Hb) as Hl. rewrite Hst, Hen in Hl.
    destruct (readable h0 b); [reflexivity | simpl in Hl; lia]. }
  rewrite Hnil, Hbytes in Hr. simpl in Hr.
  pose proof Hb1 as [(Hok1 & _) Hinv1]. pose proof Hinv1 as [[? ?] ?].
  exists a', h0, b, h1, b1. split; [exact HN|]. split; [exact HW|].
  split; [exact Hr|].
  split; [rewrite (Len_eq b1 Hok1 Hinv1); lia|].
  split; [unfold Cap; lia|]. split.
  - intros Hfit. destruct Hroom as [-> Hlen]; [lia|]. cbn [data pooled].
    split; [reflexivity|]. split; [exact Hlen|].
    rewrite Hpool. lia.
  - intros Hbig. destruct Hnew as (Harr & Hpl' & _); [lia | left; exact Hst|].
    split; [exact Harr|]. split; [exact Hpl'|].
    unfold Release. rewrite Hpl'. reflexivity.
Qed.

Lemma NewSize_then_Write_witness :
  let h := [[x61; x62; x63; x64; x65; x66; x67]] in
  let p := Slice (Some 0%nat) 0 7 7 in
  alloc_wf h NewAllocator /\ 2 * 2 <= maxAlloc /\ slice_wf h p /\
  0 < len p <= maxAlloc /\
  exists a' h0 b h1 b1,
    NewSize 0 NewAllocator h 2 = Ok (a', h0, b) /\
    Write h0 b p = Ok (h1, b1, 7, None) /\
    readable h1 b1 = [x61; x62; x63; x64; x65; x66; x67] /\
    Len b1 = 7 /\ 7 <= Cap b1 /\ pooled b1 = false.
Proof.
  intros h p.
  assert (Hp : slice_wf h p).
  { unfold slice_wf, slice_ok, int_max. simpl. lia. }
  assert (H2 : 2 * 2 <= maxAlloc) by (vm_compute; congruence).
  assert (Hl : 0 < len p <= maxAlloc).
  { split; [reflexivity | vm_compute; congruence]. }
  split; [apply NewAllocator_wf|]. split; [exact H2|]. split; [exact Hp|].
  split; [exact Hl|].
  destruct (NewSize_then_Write 0 NewAllocator h 2 p
              (NewAllocator_wf h) H2 Hp Hl)
    as (a' & h0 & b & h1 & b1 & HN & HW & Hr & HL & HC & _ & Hbig).
  exists a', h0, b, h1, b1. split; [exact HN|]. split; [exact HW|].
  split; [exact Hr|]. split; [exact HL|]. split; [exact HC|].
  apply Hbig. reflexivity.
Defined.

(** X18. Recycling.  [NewSize] with a size in [1, 65536] gives a
    pool-owned buffer; [Release] of that buffer always gets its storage
    accepted by the pool, and the allocator keeps its shape.  A following
    [NewSize] of the same size that is served from the most recent entry of
    the pool gets the same storage back, allocates nothing, and leaves the
    allocator as it was before the [Release]. *)
Theorem NewSize_Release_recycles
    (pick : nat) (a : Allocator) h (size : Z) :
  alloc_inv a -> 1 <= size <= 65536 ->
  exists a1 h1 b a2,
    NewSize pick a h size = Ok (a1, h1, b) /\ pooled b = true /\
    Allocator_Put a1 (data b) = Ok (a2, None) /\
    Release a1 (Some b) = Ok (a2, Some zero_Buffer) /\ alloc_inv a2 /\
    forall h2,
      NewSize 0 a2 h2 size =
        Ok (a1, h2, mkBuffer (data b) 0 0 true).
Proof.
  intros Ha Hs.
  destruct (Allocator_Get_in_range pick a h size Ha Hs)
    as (a1 & h1 & r & Hget & Hnil & Hlen & Hsm & Ha1 &
        i & p0 & p1 & buf & _ & _ & Hr & Hcap & Hi & _).
  pose proof Hsm as (_ & Hle & _).
  assert (Hc16 : cap r <= 65536).
  { rewrite Hr. cbn [cap]. rewrite Hcap. change 65536 with (2 ^ 16).
    apply Z.pow_le_mono_r; lia. }
  assert (Hcut : forall d, is_nil d = false -> len d = size ->
                 size <= cap d ->
                 reslice d 0 size = Ok d).
  { intros d _ Hl Hc. rewrite reslice_ok by lia.
    rewrite Z.add_0_r, !Z.sub_0_r. destruct d. simpl in *. subst.
    reflexivity. }
  assert (HN : NewSize pick a h size = Ok (a1, h1, mkBuffer r 0 0 true)).
  { unfold NewSize, Get.
    destruct (size <? 0) eqn:E; [lia|]. clear E.
    destruct (size =? 0) eqn:E; [lia|]. clear E.
    rewrite Hget. cbn [mbind result_bind]. rewrite Hnil. cbn [negb].
    rewrite (Hcut r Hnil Hlen Hle). reflexivity. }
  destruct (Put_Get_reuse a1 r size [] Ha1 Hnil ltac:(lia) Hc16 Hsm)
    as (a2 & Hput & Ha2 & _).
  exists a1, h1, (mkBuffer r 0 0 true), a2.
  split; [exact HN|]. split; [reflexivity|]. cbn [data].
  split; [exact Hput|]. split.
  { unfold Release, Put. cbn [pooled data]. rewrite Hnil. cbn [negb andb].
    rewrite Hput. reflexivity. }
  split; [exact Ha2|].
  intros h2.
  destruct (Put_Get_reuse a1 r size h2 Ha1 Hnil ltac:(lia) Hc16 Hsm)
    as (a2' & Hput' & _ & Hget2).
  rewrite Hput in Hput'. injection Hput' as <-.
  unfold NewSize, Get.
  destruct (size <? 0) eqn:E; [lia|]. clear E.
  destruct (size =? 0) eqn:E; [lia|]. clear E.
  rewrite Hget2. cbn [mbind result_bind].
  assert (Hnil2 : is_nil (Slice (arr r) (off r) size (cap r)) = false)
    by exact Hnil.
  rewrite Hnil2. cbn [negb].
  rewrite reslice_ok by (cbn [cap]; lia). cbn [mbind result_bind].
  cbn [arr off cap]. rewrite Z.add_0_r, !Z.sub_0_r.
  destruct r. simpl in *. subst. reflexivity.
Qed.

Lemma NewSize_Release_recycles_witness :
  alloc_inv NewAllocator /\ 1 <= 10 <= 65536 /\
  exists a1 h1 b a2,
    NewSize 0 NewAllocator [] 10 = Ok (a1, h1, b) /\ pooled b = true /\
    Release a1 (Some b) = Ok (a2, Some zero_Buffer) /\
    NewSize 0 a2 h1 10 = Ok (a1, h1, mkBuffer (data b) 0 0 true).
Proof.
  split; [exact NewAllocator_inv|]. split; [lia|].
  destruct (NewSize_Release_recycles 0 NewAllocator [] 10 NewAllocator_inv
              ltac:(lia))
    as (a1 & h1 & b & a2 & HN & Hp & _ & HR & _ & Hagain).
  exists a1, h1, b, a2. split; [exact HN|]. split; [exact Hp|].
  split; [exact HR | exact (Hagain h1)].
Defined.

(** X19. Compaction saves the allocation.  When part of the content has
    been read ([start > 0]), content remains, and [p] does not fit after
    [end] but fits once the consumed space is reclaimed, [Write] moves the
    content to the front of the same storage and appends there: nothing is
    allocated, storage and ownership are unchanged, [start] is 0. *)
Theorem Write_compacts_in_place h b p :
  buf_wf h b -> slice_wf h p -> arr p <> arr (data b) ->
  0 < start b -> 0 < Len b ->
  Cap b - end_ b < len p -> len p <= Cap b - Len b ->
  exists h',
    Write h b p =
      Ok (h', mkBuffer (data b) 0 (Len b + len p) (pooled b), len p, None) /\
    readable h' (mkBuffer (data b) 0 (Len b + len p) (pooled b))
      = readable h b ++ bytes_of h p /\
    length h' = length h.
Proof.
  intros Hb Hp Hne. pose proof Hb as [Hwf Hinv].
  pose proof Hwf as (Hok & _). pose proof Hok as (? & ? & ?).
  pose proof Hinv as (Hs & He).
  rewrite (Len_eq b Hok Hinv). unfold Cap. intros Hst HL Hless Hfits.
  destruct (Write_full h b p Hb Hp ltac:(lia) ltac:(lia)
              ltac:(left; exact Hne))
    as (h' & b' & HW & _ & Hr & _ & _ & _ & _ & _ & Hcomp).
  destruct (Hcomp Hless Hst HL Hfits) as [-> Hlen].
  exists h'. split; [exact HW|]. split; [exact Hr | exact Hlen].
Qed.

Lemma Write_compacts_in_place_witness :
  let h := [[x61; x62; x63; x64]; [x65; x66]] in
  let b := mkBuffer (Slice (Some 0%nat) 0 4 4) 2 4 true in
  let p := Slice (Some 1%nat) 0 2 2 in
  buf_wf h b /\ slice_wf h p /\ arr p <> arr (data b) /\
  0 < start b /\ 0 < Len b /\
  Cap b - end_ b < len p /\ len p <= Cap b - Len b /\
  exists h',
    Write h b p =
      Ok (h', mkBuffer (Slice (Some 0%nat) 0 4 4) 0 4 true, 2, None) /\
    readable h' (mkBuffer (Slice (Some 0%nat) 0 4 4) 0 4 true)
      = [x63; x64; x65; x66] /\
    length h' = 2%nat.
Proof.
  intros h b p.
  assert (Hb : buf_wf h b).
  { unfold buf_wf, slice_wf, slice_ok, buf_inv, int_max. simpl. lia. }
  assert (Hp : slice_wf h p).
  { unfold slice_wf, slice_ok, int_max. simpl. lia. }
  assert (Hne : arr p <> arr (data b)) by discriminate.
  split; [exact Hb|]. split; [exact Hp|]. split; [exact Hne|].
  split; [reflexivity|]. split; [reflexivity|]. split; [reflexivity|].
  split; [vm_compute; congruence|].
  apply (Write_compacts_in_place h b p Hb Hp Hne);
    vm_compute; congruence.
Defined.

End BufferMore.
